(** * Multinomial Naive Bayes classifier ([src/naive_bayes.py])

    A shallow embedding of the class [NaiveBayes] and the properties of its
    training and inference methods.

    Numbers.  A value of a float tensor is a number, an infinity or a
    not-a-number ([ext]); the numbers are exact, rationals ([Q]) for what
    [fit] obtains with additions and divisions and reals ([R]) for what
    inference computes with [torch.log] and [torch.softmax], and the
    infinities and not-a-numbers arise and combine as IEEE 754 has them
    (division by zero, logarithm of zero or of a negative number, zero times
    infinity, infinity minus infinity).  Rounding and overflow are not
    modelled, nor is the wrap-around of an integer tensor: the statements
    that depend on these carry hypotheses that keep the numbers small
    ([exact_counts], [exact_feature], [moderate]).

    Storage.  A 2-D tensor is its list of rows together with its second
    dimension.  [features[i,:]] is a view: it shares its storage with row [i]
    of [features], and is modelled by the row index [i] into the store that
    holds the rows.  An in-place [+=] through a view updates that store.

    Dictionaries keep insertion order, as Python's do, and are association
    lists with distinct keys.  Labels are non-negative integers: the class
    ids [torch.bincount] accepts. *)

From Stdlib Require Import QArith Qabs Qfield Lqa Reals Qreals Lra Lia String.
From stdpp Require Import list sorting.

Set Default Proof Using "Type".

(** ** Exceptions and results *)

Inductive exn : Type :=
  | ValueError (msg : string)
  | Exception (msg : string)
  | KeyError (key : nat)
  | IndexError
  | TypeError
  | RuntimeError.

Inductive result (A : Type) : Type :=
  | Ok (a : A)
  | Raise (e : exn).
Arguments Ok {A} a.
Arguments Raise {A} e.

Definition bind {A B : Type} (r : result A) (k : A -> result B) : result B :=
  match r with
  | Ok a => k a
  | Raise e => Raise e
  end.

Notation "x <- r ;;; k" := (bind r (fun x => k))
  (at level 100, r at next level, right associativity).

(** ** Values of float tensors *)

(** A number, [inf], [-inf] or [nan]. *)
Inductive ext (A : Type) : Type :=
  | Fin (a : A)
  | PInf
  | NInf
  | NaN.
Arguments Fin {A} a.
Arguments PInf {A}.
Arguments NInf {A}.
Arguments NaN {A}.

Definition is_nan {A : Type} (x : ext A) : bool :=
  match x with NaN => true | _ => false end.
Definition is_pinf {A : Type} (x : ext A) : bool :=
  match x with PInf => true | _ => false end.
Definition is_ninf {A : Type} (x : ext A) : bool :=
  match x with NInf => true | _ => false end.

(** Division [n / d] of two numbers of a float tensor. *)
Definition tensor_div (n d : Q) : ext Q :=
  if Qeq_bool d 0 then
    if Qlt_le_dec 0 n then PInf
    else if Qlt_le_dec n 0 then NInf
    else NaN
  else Fin (n / d)%Q.

(** [torch.log] *)
Definition torch_log (x : ext Q) : ext R :=
  match x with
  | Fin q =>
      if Qlt_le_dec 0 q then Fin (ln (Q2R q))
      else if Qeq_bool q 0 then NInf
      else NaN
  | PInf => PInf
  | NInf => NaN
  | NaN => NaN
  end.

(** Product of a number [f] and a value. *)
Definition scale (f : Q) (x : ext R) : ext R :=
  match x with
  | Fin r => Fin (Q2R f * r)%R
  | PInf => if Qlt_le_dec 0 f then PInf
            else if Qlt_le_dec f 0 then NInf else NaN
  | NInf => if Qlt_le_dec 0 f then NInf
            else if Qlt_le_dec f 0 then PInf else NaN
  | NaN => NaN
  end.

Definition xadd (a b : ext R) : ext R :=
  match a, b with
  | NaN, _ | _, NaN => NaN
  | Fin x, Fin y => Fin (x + y)%R
  | PInf, NInf | NInf, PInf => NaN
  | PInf, _ | _, PInf => PInf
  | NInf, _ | _, NInf => NInf
  end.

(** [torch.sum] of a 1-D tensor. *)
Definition xsum (v : list (ext R)) : ext R := fold_right xadd (Fin 0%R) v.

(** [a > b] in the order [torch.argmax] compares with:
    [-inf] < numbers < [inf] < [nan]. *)
Definition beats (a b : ext R) : bool :=
  match a, b with
  | NaN, NaN => false
  | NaN, _ => true
  | _, NaN => false
  | PInf, PInf => false
  | PInf, _ => true
  | _, PInf => false
  | Fin x, Fin y => if Rlt_dec y x then true else false
  | Fin _, NInf => true
  | NInf, _ => false
  end.

(** Both messages the source uses for a model that was not trained. *)
Definition msg_must_be_trained : string :=
  "Model must be trained before estimating class posteriors.".
Definition msg_not_trained : string :=
  "Model not trained. Please call the train method first.".

Definition is_not_trained_error (e : exn) : Prop :=
  e = ValueError msg_must_be_trained \/ e = Exception msg_not_trained.

(** ** Insertion-ordered dictionaries keyed by class id *)

Module PyDict.
Section dict.
Context {V : Type}.

Definition dict : Type := list (nat * V).

Fixpoint get (k : nat) (d : dict) : option V :=
  match d with
  | [] => None
  | (k', v) :: d' => if Nat.eqb k k' then Some v else get k d'
  end.

(** [d[k] = v]: overwrite in place, or append a new key. *)
Fixpoint set (k : nat) (v : V) (d : dict) : dict :=
  match d with
  | [] => [(k, v)]
  | (k', v') :: d' =>
      if Nat.eqb k k' then (k', v) :: d' else (k', v') :: set k v d'
  end.

Definition keys (d : dict) : list nat := map fst d.
Definition values (d : dict) : list V := map snd d.

(** [d[k]] as an expression. *)
Definition getitem (k : nat) (d : dict) : result V :=
  match get k d with
  | Some v => Ok v
  | None => Raise (KeyError k)
  end.

End dict.
Arguments dict V : clear implicits.
End PyDict.

Abbreviation dict := PyDict.dict.

(** ** Tensors *)

(** A 2-D tensor of shape [(length t_rows, t_ncols)]. *)
Record Tensor2D : Type := mkTensor2D {
  t_rows : list (list Q);
  t_ncols : nat
}.

Definition well_shaped (t : Tensor2D) : Prop :=
  Forall (fun row => length row = t_ncols t) (t_rows t).

Definition nonneg_counts (t : Tensor2D) : Prop :=
  Forall (Forall (fun x => (0 <= x)%Q)) (t_rows t).

(** A view of one row of the features tensor: the row's index. *)
Abbreviation view := nat (only parsing).

(** Elementwise [a + b] and [torch.sum]: the exact sums, which are what a
    tensor computes on counts within [exact_counts]. *)
Definition vadd (a b : list Q) : list Q := zip_with Qplus a b.

Definition qsum (v : list Q) : Q := fold_right Qplus 0%Q v.

Definition read (store : list (list Q)) (r : view) : list Q :=
  default [] (store !! r).

(** [dst += src] on two views of the same store. *)
Definition iadd (store : list (list Q)) (dst src : view) : list (list Q) :=
  <[dst := vadd (read store dst) (read store src)]> store.

Definition Qnat (n : nat) : Q := inject_Z (Z.of_nat n).

(** [torch.bincount] of a vector of non-negative integers. *)
Definition num_classes (labels : list nat) : nat :=
  match labels with
  | [] => 0
  | _ => S (max_list labels)
  end.

Definition bincount (labels : list nat) : list nat :=
  map (fun c => count_occ Nat.eq_dec labels c) (seq 0 (num_classes labels)).

(** [torch.unique] of a vector of non-negative integers: its distinct
    values in ascending order. *)
Definition unique (labels : list nat) : list nat :=
  filter (fun c => c ∈ labels) (seq 0 (num_classes labels)).

(** ** The classifier *)

Record NaiveBayes : Type := mkNaiveBayes {
  class_priors : option (dict Q);
  conditional_probabilities : option (dict (list (ext Q)));
  vocab_size : option nat
}.

(** [NaiveBayes()] *)
Definition init : NaiveBayes :=
  {| class_priors := None; conditional_probabilities := None; vocab_size := None |}.

(** The first loop of [estimate_conditional_probabilities], over the row
    indices [idx].  [class_word_counts] maps a label to the view stored for
    it; the store is returned as the loop left it, also when it raises. *)
Fixpoint count_words (idx : list nat) (labels : list nat)
    (store : list (list Q)) (class_word_counts : dict view)
    : list (list Q) * result (dict view) :=
  match idx with
  | [] => (store, Ok class_word_counts)
  | i :: idx' =>
      let bow : view := i in
      match labels !! i with
      | None => (store, Raise IndexError)
      | Some label =>
          match PyDict.get label class_word_counts with
          | Some acc =>
              count_words idx' labels (iadd store acc bow) class_word_counts
          | None =>
              count_words idx' labels store (PyDict.set label bow class_word_counts)
          end
      end
  end.

Definition smooth (word_counts : list Q) (delta : Q) (vocab : nat)
    : list (ext Q) :=
  let total_words := qsum word_counts in
  map (fun w => tensor_div (w + delta) (total_words + delta * Qnat vocab))
      word_counts.

(** The second loop: one entry per item of [class_word_counts], in its
    order; its keys are distinct, so every assignment adds a key. *)
Definition smooth_all (store : list (list Q)) (class_word_counts : dict view)
    (delta : Q) (vocab : nat) : dict (list (ext Q)) :=
  map (fun '(label, wc) => (label, smooth (read store wc) delta vocab))
      class_word_counts.

Definition estimate_conditional_probabilities (self : NaiveBayes)
    (features : Tensor2D) (labels : list nat) (delta : Q)
    : Tensor2D * result (dict (list (ext Q))) :=
  match count_words (seq 0 (length (t_rows features))) labels (t_rows features) [] with
  | (store, Raise e) => (mkTensor2D store (t_ncols features), Raise e)
  | (store, Ok class_word_counts) =>
      (mkTensor2D store (t_ncols features),
       match class_word_counts, vocab_size self with
       | [], _ => Ok []
       | _, None => Raise TypeError
       | _, Some vocab => Ok (smooth_all store class_word_counts delta vocab)
       end)
  end.

(** [fit] returns the classifier and the caller's features tensor as the
    call leaves them, and whether it returned or raised. *)
Definition fit (self : NaiveBayes) (features : Tensor2D) (labels : list nat)
    (delta : Q) : NaiveBayes * Tensor2D * result unit :=
  let num_examples := length labels in
  let class_counts := bincount labels in
  let priors : dict Q :=
    imap (fun i count => (i, (Qnat count / Qnat num_examples)%Q)) class_counts in
  let self1 :=
    {| class_priors := Some priors;
       conditional_probabilities := conditional_probabilities self;
       vocab_size := Some (t_ncols features) |} in
  match estimate_conditional_probabilities self1 features labels delta with
  | (features', Ok cp) =>
      ({| class_priors := class_priors self1;
          conditional_probabilities := Some cp;
          vocab_size := vocab_size self1 |}, features', Ok tt)
  | (features', Raise e) => (self1, features', Raise e)
  end.

(** [estimate_class_priors], which [fit] does not call. *)
Definition estimate_class_priors (labels : list nat) : dict Q :=
  map (fun unique_label =>
         (unique_label,
          (Qnat (length (filter (fun l => l = unique_label) labels))
           / Qnat (length labels))%Q))
      (unique labels).

(** ** Inference *)

Definition rsum (v : list R) : R := fold_right Rplus 0%R v.

(** Elementwise product [feature * t] of two 1-D tensors, with broadcasting
    of a tensor of one element. *)
Definition torch_mul (feature : list Q) (t : list (ext R))
    : result (list (ext R)) :=
  if Nat.eqb (length feature) (length t) then Ok (zip_with scale feature t)
  else match feature, t with
       | [x], _ => Ok (map (scale x) t)
       | _, [y] => Ok (map (fun x => scale x y) feature)
       | _, _ => Raise RuntimeError
       end.

(** [t[i] = x] on a 1-D tensor. *)
Definition setitem (t : list (ext R)) (i : nat) (x : ext R)
    : result (list (ext R)) :=
  if Nat.ltb i (length t) then Ok (<[i := x]> t) else Raise IndexError.

(** The loop of [estimate_class_posteriors] over the keys of the priors. *)
Fixpoint posteriors_loop (priors : dict Q) (conditionals : dict (list (ext Q)))
    (feature : list Q) (class_labels : list nat) (log_posteriors : list (ext R))
    : result (list (ext R)) :=
  match class_labels with
  | [] => Ok log_posteriors
  | class_label :: rest =>
      prior <- PyDict.getitem class_label priors ;;;
      let log_prior := torch_log (Fin prior) in
      conditional_prob <- PyDict.getitem class_label conditionals ;;;
      products <- torch_mul feature (map torch_log conditional_prob) ;;;
      let log_likelihood := xsum products in
      log_posteriors' <-
        setitem log_posteriors class_label (xadd log_prior log_likelihood) ;;;
      posteriors_loop priors conditionals feature rest log_posteriors'
  end.

(** The diagnostic [print] of the source is left out. *)
Definition estimate_class_posteriors (self : NaiveBayes) (feature : list Q)
    : result (list (ext R)) :=
  match conditional_probabilities self, class_priors self with
  | Some conditionals, Some priors =>
      posteriors_loop priors conditionals feature (PyDict.keys priors)
        (replicate (length priors) (Fin 0%R))
  | _, _ => Raise (ValueError msg_must_be_trained)
  end.

(** [not d] for a field that is [None] or a dictionary. *)
Definition py_not {V : Type} (d : option (dict V)) : bool :=
  match d with
  | None => true
  | Some [] => true
  | Some (_ :: _) => false
  end.

(** [torch.argmax] of a 1-D tensor: the index of the first value that no
    other value beats.  [best_i] and [best] are the running maximum, [i]
    the next index. *)
Fixpoint argmax_from (best_i : nat) (best : ext R) (i : nat) (t : list (ext R))
    : nat :=
  match t with
  | [] => best_i
  | x :: t' =>
      if beats x best then argmax_from i x (S i) t'
      else argmax_from best_i best (S i) t'
  end.

Definition argmax (t : list (ext R)) : result nat :=
  match t with
  | [] => Raise RuntimeError
  | x :: t' => Ok (argmax_from 0 x 1 t')
  end.

(** [exp] of a value that is a number or [-inf]. *)
Definition xexp (x : ext R) : R :=
  match x with
  | Fin r => exp r
  | _ => 0%R
  end.

(** [torch.softmax(t, dim=0)]: [exp(x - max) / sum(exp(x - max))], which is
    [nan] everywhere when [t] holds a [nan] or an [inf], or [-inf] only. *)
Definition softmax (t : list (ext R)) : list (ext R) :=
  if existsb is_nan t || existsb is_pinf t || forallb is_ninf t
  then map (fun _ => NaN) t
  else
    let z := rsum (map xexp t) in
    map (fun x => Fin (xexp x / z)%R) t.

Definition predict (self : NaiveBayes) (feature : list Q) : result nat :=
  if py_not (class_priors self) || py_not (conditional_probabilities self)
  then Raise (Exception msg_not_trained)
  else
    log_posteriors <- estimate_class_posteriors self feature ;;;
    argmax log_posteriors.

Definition predict_proba (self : NaiveBayes) (feature : list Q)
    : result (list (ext R)) :=
  if py_not (class_priors self) || py_not (conditional_probabilities self)
  then Raise (Exception msg_not_trained)
  else
    log_posteriors <- estimate_class_posteriors self feature ;;;
    Ok (softmax log_posteriors).

(** ** What the training set determines *)

(** The rows of the examples labelled [c], in order. *)
Fixpoint class_rows (c : nat) (rows : list (list Q)) (labels : list nat)
    : list (list Q) :=
  match rows, labels with
  | r :: rows', l :: labels' =>
      if Nat.eqb l c then r :: class_rows c rows' labels'
      else class_rows c rows' labels'
  | _, _ => []
  end.

(** Elementwise sum of a non-empty list of vectors. *)
Definition vsum (rs : list (list Q)) : list Q :=
  match rs with
  | [] => []
  | r :: rs' => fold_left vadd rs' r
  end.

(** [W_c]: the per-class word-count vector. *)
Definition word_counts (features : Tensor2D) (labels : list nat) (c : nat)
    : list Q :=
  vsum (class_rows c (t_rows features) labels).

(** Every class id up to the largest label has an example. *)
Definition dense (labels : list nat) : Prop :=
  Forall (fun c => c ∈ labels) (seq 0 (num_classes labels)).

(** The priors [fit] stores: one entry per class id below [num_classes]. *)
Definition fitted_priors (labels : list nat) : dict Q :=
  map (fun c => (c, (Qnat (count_occ Nat.eq_dec labels c)
                     / Qnat (length labels))%Q))
      (seq 0 (num_classes labels)).

(** [c] is the first index at which [t] is maximal, in the order of
    [beats]. *)
Definition first_max (t : list (ext R)) (c : nat) : Prop :=
  exists x, t !! c = Some x
    /\ (forall j y, t !! j = Some y -> beats y x = false)
    /\ (forall j y, j < c -> t !! j = Some y -> beats x y = true).

(** The quotients of the smoothing formula, where they are numbers. *)
Definition smoothed (word_counts : list Q) (delta : Q) (vocab : nat) : list Q :=
  map (fun w => ((w + delta) / (qsum word_counts + delta * Qnat vocab))%Q)
      word_counts.

(** [torch.softmax] of a tensor of numbers. *)
Definition real_softmax (t : list R) : list R :=
  let z := rsum (map exp t) in
  map (fun x => (exp x / z)%R) t.

(** A count: a non-negative integer. *)
Definition is_count (x : Q) : Prop := exists n : nat, x = Qnat n.

(** Word counts that a tensor adds up exactly whatever its dtype:
    non-negative integers whose total is at most 2^24 = 16777216, all of
    which float32 and int64 hold exactly. *)
Definition exact_counts (features : Tensor2D) : Prop :=
  Forall (Forall is_count) (t_rows features)
  /\ (qsum (concat (t_rows features)) <= 16777216)%Q.

Definition exact_feature (feature : list Q) : Prop :=
  Forall is_count feature /\ (qsum feature <= 16777216)%Q.

(** A smoothing strength that float32 neither flushes to zero nor
    overflows on. *)
Definition moderate (delta : Q) : Prop :=
  (1 / 16777216 <= delta <= 16777216)%Q.

(** A training set [fit] is meant for: a rectangular matrix of non-negative
    word counts, one label per example, at least one example, an example
    for every class id up to the largest label, and a positive smoothing
    strength.  Every probability [fit] then stores is positive, so that
    inference takes logarithms of positive numbers only. *)
Record valid_training (features : Tensor2D) (labels : list nat) (delta : Q)
    : Prop := {
  vt_shape : well_shaped features;
  vt_counts : nonneg_counts features;
  vt_labels : length labels = length (t_rows features);
  vt_nonempty : labels <> [];
  vt_dense : dense labels;
  vt_delta : (0 < delta)%Q
}.

(** ** The loop invariant of [count_words] *)

(** The state of the loop once the rows below [i] are done: a label seen
    so far owns the view of its first row, which holds the sum of the
    rows of its class so far; every row that is no such view is as it
    was. *)
Record loop_inv (rows0 : list (list Q)) (labels : list nat)
    (i : nat) (store : list (list Q)) (cwc : dict view) : Prop := {
  inv_length : length store = length rows0;
  inv_frame : forall k,
    (forall c, PyDict.get c cwc <> Some k) -> store !! k = rows0 !! k;
  inv_seen : forall c k, PyDict.get c cwc = Some k ->
    k < i /\ labels !! k = Some c
    /\ class_rows c (take i rows0) (take i labels) <> []
    /\ store !! k = Some (vsum (class_rows c (take i rows0) (take i labels)));
  inv_unseen : forall c, PyDict.get c cwc = None ->
    class_rows c (take i rows0) (take i labels) = []
}.

(** ** The scenario of the specification *)

Definition features0 : Tensor2D :=
  mkTensor2D [[1; 0; 1]; [0; 1; 1]; [1; 1; 0]]%Q 3.
Definition labels0 : list nat := [0; 0; 1].
Definition feature0 : list Q := [1; 1; 0]%Q.

(** A training set whose labels skip the class id 1. *)
Definition features_gap : Tensor2D := mkTensor2D [[1; 0]; [0; 1]]%Q 2.
Definition labels_gap : list nat := [0; 2].

(** A training set on which both classes get the same log-posterior. *)
Definition features_tie : Tensor2D := mkTensor2D [[1]; [1]]%Q 1.
Definition labels_tie : list nat := [0; 1].

Definition labels_blank : list nat := [0].

(** A training set without a vocabulary. *)
Definition features_no_vocab : Tensor2D := mkTensor2D [[]] 0.

(** Two classes that share no word, fitted without smoothing. *)
Definition features_disjoint : Tensor2D := mkTensor2D [[1; 0]; [0; 1]]%Q 2.
Definition labels_disjoint : list nat := [0; 1].
Definition feature_first_word : list Q := [1; 0]%Q.
Definition feature_second_word : list Q := [0; 1]%Q.

(** Labels for the first two examples of the scenario only. *)
Definition labels_short : list nat := [0; 0].

(** [k] is the first example labelled [c]. *)
Definition first_example (labels : list nat) (k c : nat) : Prop :=
  labels !! k = Some c /\ forall k', k' < k -> labels !! k' <> Some c.

(** * Proofs *)

Ltac qlra := Lqa.lra.
Ltac rlra := Lra.lra.

(** ** Dictionaries *)

Section dict_facts.
Context {V : Type}.
Implicit Types (d : dict V) (k : nat) (v : V).

Lemma get_set_eq d k v : PyDict.get k (PyDict.set k v d) = Some v.
Proof.
  induction d as [|[k' v'] d IH]; simpl.
  - by rewrite Nat.eqb_refl.
  - destruct (Nat.eqb k k') eqn:E; simpl; rewrite E; [done | exact IH].
Qed.

Lemma get_set_ne d k k' v :
  k <> k' -> PyDict.get k' (PyDict.set k v d) = PyDict.get k' d.
Proof.
  intros Hne. induction d as [|[k0 v0] d IH]; simpl.
  - destruct (Nat.eqb k' k) eqn:E; [|done].
    apply Nat.eqb_eq in E. congruence.
  - destruct (Nat.eqb k k0) eqn:E; simpl.
    + apply Nat.eqb_eq in E. subst k0.
      destruct (Nat.eqb k' k) eqn:E'; [|done].
      apply Nat.eqb_eq in E'. congruence.
    + by rewrite IH.
Qed.

Lemma get_map_seq (f : nat -> V) (n k : nat) :
  PyDict.get k (map (fun c => (c, f c)) (seq 0 n))
  = if decide (k < n) then Some (f k) else None.
Proof.
  assert (G : forall s, PyDict.get k (map (fun c => (c, f c)) (seq s n))
            = if decide (s <= k < s + n) then Some (f k) else None).
  { induction n as [|n IH]; intros s; simpl.
    - case_decide; [lia | done].
    - destruct (Nat.eqb k s) eqn:E.
      + apply Nat.eqb_eq in E. subst. case_decide; [done | lia].
      + apply Nat.eqb_neq in E. rewrite IH.
        repeat case_decide; try done; lia. }
  rewrite G. repeat case_decide; try done; lia.
Qed.

Lemma get_map_values {W : Type} (f : V -> W) d k :
  PyDict.get k (map (fun '(c, x) => (c, f x)) d) = f <$> PyDict.get k d.
Proof.
  induction d as [|[k' v'] d IH]; simpl; [done|].
  destruct (Nat.eqb k k'); [done | exact IH].
Qed.

End dict_facts.

(** ** The accumulation loop *)

Lemma class_rows_snoc c rows labels r l :
  length rows = length labels ->
  class_rows c (rows ++ [r]) (labels ++ [l])
  = class_rows c rows labels ++ (if Nat.eqb l c then [r] else []).
Proof.
  revert labels. induction rows as [|r0 rows IH]; intros [|l0 labels] Hlen;
    simpl in *; try lia.
  - by destruct (Nat.eqb l c).
  - rewrite IH by lia. by destruct (Nat.eqb l0 c).
Qed.

Lemma class_rows_take_S c rows labels i r l :
  rows !! i = Some r -> labels !! i = Some l ->
  class_rows c (take (S i) rows) (take (S i) labels)
  = class_rows c (take i rows) (take i labels)
    ++ (if Nat.eqb l c then [r] else []).
Proof.
  intros Hr Hl. rewrite (take_S_r _ _ _ Hr), (take_S_r _ _ _ Hl).
  apply class_rows_snoc.
  apply lookup_lt_Some in Hr, Hl. rewrite !length_take. lia.
Qed.

Lemma vsum_snoc rs r :
  vsum (rs ++ [r]) = match rs with [] => r | _ => vadd (vsum rs) r end.
Proof.
  destruct rs as [|r0 rs]; simpl; [done|]. by rewrite fold_left_app.
Qed.

Section count_words_invariant.
Variables (rows0 : list (list Q)) (labels : list nat).

Lemma loop_inv_start : loop_inv rows0 labels 0 rows0 [].
Proof. by split. Qed.

Lemma loop_inv_todo i store cwc k :
  loop_inv rows0 labels i store cwc -> i <= k -> store !! k = rows0 !! k.
Proof.
  intros H Hk. apply (inv_frame _ _ _ _ _ H). intros c Hc.
  apply (inv_seen _ _ _ _ _ H) in Hc. lia.
Qed.

Lemma loop_inv_step i store cwc label r :
  loop_inv rows0 labels i store cwc ->
  rows0 !! i = Some r -> labels !! i = Some label ->
  match PyDict.get label cwc with
  | Some acc => loop_inv rows0 labels (S i) (iadd store acc i) cwc
  | None => loop_inv rows0 labels (S i) store (PyDict.set label i cwc)
  end.
Proof.
  intros H Hr Hl.
  assert (Hsi : store !! i = Some r).
  { rewrite <- Hr. by apply (loop_inv_todo i _ cwc). }
  destruct (PyDict.get label cwc) as [acc|] eqn:Hget.
  - destruct (inv_seen _ _ _ _ _ H _ _ Hget) as (Hlt & Hlab & Hne & Hacc).
    assert (Hacclen : acc < length store) by by eapply lookup_lt_Some.
    split.
    + unfold iadd. rewrite length_insert. apply H.
    + intros k Hk. unfold iadd. rewrite list_lookup_insert_ne.
      * by apply (inv_frame _ _ _ _ _ H).
      * intros ->. by apply (Hk label).
    + intros c k Hc.
      destruct (inv_seen _ _ _ _ _ H _ _ Hc) as (Hlt' & Hlab' & Hne' & Hk).
      rewrite (class_rows_take_S _ _ _ _ _ _ Hr Hl).
      split; [lia|]. split; [done|]. split.
      { intros E. by apply app_eq_nil in E as [? _]. }
      unfold iadd. destruct (decide (c = label)) as [->|Hcl].
      * assert (k = acc) as -> by congruence.
        rewrite list_lookup_insert_eq by done.
        rewrite Nat.eqb_refl, vsum_snoc. unfold read.
        rewrite Hacc, Hsi. simpl.
        by destruct (class_rows label (take i rows0) (take i labels)).
      * apply Nat.eqb_neq in Hcl as Hcl'.
        rewrite Nat.eqb_sym in Hcl'. rewrite Hcl', app_nil_r.
        rewrite list_lookup_insert_ne; [done|].
        intros ->. congruence.
    + intros c Hc. rewrite (class_rows_take_S _ _ _ _ _ _ Hr Hl).
      rewrite (inv_unseen _ _ _ _ _ H _ Hc).
      destruct (Nat.eqb label c) eqn:E; [|done].
      apply Nat.eqb_eq in E. congruence.
  - split.
    + apply H.
    + intros k Hk. apply (inv_frame _ _ _ _ _ H). intros c Hc.
      destruct (decide (c = label)) as [->|Hcl]; [congruence|].
      apply (Hk c). by rewrite get_set_ne.
    + intros c k Hc. rewrite (class_rows_take_S _ _ _ _ _ _ Hr Hl).
      destruct (decide (c = label)) as [->|Hcl].
      * rewrite get_set_eq in Hc. injection Hc as <-.
        rewrite Nat.eqb_refl, (inv_unseen _ _ _ _ _ H _ Hget). simpl.
        split; [lia|]. by repeat split.
      * rewrite get_set_ne in Hc by done.
        destruct (inv_seen _ _ _ _ _ H _ _ Hc) as (Hlt' & Hlab' & Hne' & Hk).
        apply Nat.eqb_neq in Hcl as Hcl'.
        rewrite Nat.eqb_sym in Hcl'. rewrite Hcl', app_nil_r.
        split; [lia|]. by repeat split.
    + intros c Hc. rewrite (class_rows_take_S _ _ _ _ _ _ Hr Hl).
      destruct (decide (c = label)) as [->|Hcl].
      * by rewrite get_set_eq in Hc.
      * rewrite get_set_ne in Hc by done.
        rewrite (inv_unseen _ _ _ _ _ H _ Hc).
        apply Nat.eqb_neq in Hcl as Hcl'.
        rewrite Nat.eqb_sym in Hcl'. by rewrite Hcl'.
Qed.

Lemma count_words_inv m : forall i store cwc,
  i + m = length rows0 -> length rows0 <= length labels ->
  loop_inv rows0 labels i store cwc ->
  exists store' cwc',
    count_words (seq i m) labels store cwc = (store', Ok cwc')
    /\ loop_inv rows0 labels (length rows0) store' cwc'.
Proof.
  induction m as [|m IH]; intros i store cwc Hi Hlen H; simpl.
  - exists store, cwc. split; [done|].
    by replace (length rows0) with i by lia.
  - destruct (lookup_lt_is_Some_2 rows0 i) as [r Hr]; [lia|].
    destruct (lookup_lt_is_Some_2 labels i) as [label Hl]; [lia|].
    rewrite Hl. pose proof (loop_inv_step _ _ _ _ _ H Hr Hl) as Hstep.
    destruct (PyDict.get label cwc); apply IH; (lia || done).
Qed.
End count_words_invariant.

(** ** What [fit] stores *)

Lemma class_rows_take_labels c rows labels :
  class_rows c rows (take (length rows) labels) = class_rows c rows labels.
Proof.
  revert labels. induction rows as [|r rows IH]; intros [|l labels]; simpl;
    try done.
  rewrite IH. done.
Qed.

Lemma class_rows_labelled c rows labels :
  length rows = length labels -> c ∈ labels -> class_rows c rows labels <> [].
Proof.
  revert labels. induction rows as [|r rows IH]; intros [|l labels] Hlen Hc;
    simpl in *; try lia.
  - by apply elem_of_nil in Hc.
  - destruct (Nat.eqb l c) eqn:E; [done|].
    apply Nat.eqb_neq in E. apply elem_of_cons in Hc as [Hc|Hc]; [congruence|].
    apply IH; [lia | done].
Qed.

Lemma imap_of_seq {A B : Type} (f : nat -> A -> B) (g : nat -> A) n :
  imap f (map g (seq 0 n)) = map (fun c => f c (g c)) (seq 0 n).
Proof.
  assert (G : forall s, imap (fun i => f (s + i)) (map g (seq s n))
                        = map (fun c => f c (g c)) (seq s n)).
  { induction n as [|n IH]; intros s; [done|].
    simpl. rewrite Nat.add_0_r. f_equal. rewrite <- IH.
    apply imap_ext. intros i x _. simpl. f_equal. lia. }
  apply (G 0).
Qed.

Lemma smooth_all_get store cwc delta vocab c :
  PyDict.get c (smooth_all store cwc delta vocab)
  = (fun wc => smooth (read store wc) delta vocab) <$> PyDict.get c cwc.
Proof. apply (get_map_values (fun wc => smooth (read store wc) delta vocab)). Qed.

(** [fit] returns when no example lacks a label; the classifier then holds
    the dense priors, the smoothed word counts of every labelled class and
    the width of the features tensor. *)
Lemma fit_returns self features labels delta :
  length (t_rows features) <= length labels ->
  exists features' cp,
    fit self features labels delta
    = ({| class_priors := Some (fitted_priors labels);
          conditional_probabilities := Some cp;
          vocab_size := Some (t_ncols features) |}, features', Ok tt)
    /\ t_ncols features' = t_ncols features
    /\ length (t_rows features') = length (t_rows features)
    /\ forall c,
         PyDict.get c cp
         = match class_rows c (t_rows features) labels with
           | [] => None
           | _ => Some (smooth (word_counts features labels c) delta
                               (t_ncols features))
           end.
Proof.
  intros Hlen. unfold fit, estimate_conditional_probabilities.
  destruct (count_words_inv (t_rows features) labels (length (t_rows features))
              0 (t_rows features) [] eq_refl Hlen
              (loop_inv_start _ _))
    as (store' & cwc' & -> & Hinv).
  unfold bincount. rewrite imap_of_seq. fold (fitted_priors labels).
  exists (mkTensor2D store' (t_ncols features)),
         (smooth_all store' cwc' delta (t_ncols features)).
  split; [by destruct cwc'|]. split; [done|]. split; [apply Hinv|].
  intros c. rewrite smooth_all_get. unfold word_counts.
  pose proof (inv_seen _ _ _ _ _ Hinv c) as Hseen.
  pose proof (inv_unseen _ _ _ _ _ Hinv c) as Hunseen.
  rewrite firstn_all, class_rows_take_labels in Hseen, Hunseen.
  destruct (PyDict.get c cwc') as [k|]; simpl.
  - destruct (Hseen k eq_refl) as (_ & _ & Hne & Hk).
    unfold read. rewrite Hk. simpl.
    by destruct (class_rows c (t_rows features) labels).
  - by rewrite Hunseen.
Qed.

(** ** Training *)

Lemma tensor_div_number (n d : Q) :
  ~ (d == 0)%Q -> tensor_div n d = Fin (n / d)%Q.
Proof.
  intros Hd. unfold tensor_div.
  destruct (Qeq_bool d 0) eqn:E; [|done].
  by apply Qeq_bool_eq in E.
Qed.

Lemma smooth_numbers (W : list Q) (delta : Q) (vocab : nat) :
  ~ (qsum W + delta * Qnat vocab == 0)%Q ->
  smooth W delta vocab = map Fin (smoothed W delta vocab).
Proof.
  intros Hd. unfold smooth, smoothed. rewrite map_map.
  apply map_ext. intros w. by apply tensor_div_number.
Qed.

Lemma exact_counts_features0 : exact_counts features0.
Proof.
  split; [|by vm_compute].
  repeat constructor; (by exists 0) || (by exists 1).
Qed.

Lemma moderate_one : moderate 1.
Proof. split; by vm_compute. Qed.




(** *** Sums of counts and of rationals *)

Lemma sum_list_indicator (a s n : nat) :
  sum_list (map (fun c => if Nat.eq_dec a c then 1 else 0) (seq s n))
  = if decide (s <= a < s + n) then 1 else 0.
Proof.
  revert s. induction n as [|n IH]; intros s; simpl.
  - case_decide; [lia | done].
  - rewrite IH. destruct (Nat.eq_dec a s); repeat case_decide; lia.
Qed.

Lemma sum_list_count_occ_cons (a : nat) (labels l : list nat) :
  sum_list (map (count_occ Nat.eq_dec (a :: labels)) l)
  = sum_list (map (fun c => if Nat.eq_dec a c then 1 else 0) l)
    + sum_list (map (count_occ Nat.eq_dec labels) l).
Proof.
  induction l as [|c l IHl]; simpl; [done|].
  simpl in IHl. rewrite IHl. destruct (Nat.eq_dec a c); lia.
Qed.

Lemma sum_list_count_occ (labels : list nat) (n : nat) :
  Forall (fun l => l < n) labels ->
  sum_list (map (count_occ Nat.eq_dec labels) (seq 0 n)) = length labels.
Proof.
  induction 1 as [|a labels Ha _ IH].
  - simpl. induction (seq 0 n); simpl; lia.
  - rewrite sum_list_count_occ_cons, IH, sum_list_indicator. simpl.
    case_decide; lia.
Qed.

Lemma labels_below_num_classes (labels : list nat) :
  Forall (fun l => l < num_classes labels) labels.
Proof.
  apply Forall_forall. intros l Hl.
  pose proof (max_list_elem_of_le _ _ Hl).
  destruct labels; [by apply elem_of_nil in Hl|]. unfold num_classes. lia.
Qed.

Lemma Qnat_add (a b : nat) : (Qnat (a + b) == Qnat a + Qnat b)%Q.
Proof. unfold Qnat. by rewrite Nat2Z.inj_add, inject_Z_plus. Qed.

Lemma Qnat_pos (n : nat) : 0 < n -> (0 < Qnat n)%Q.
Proof.
  intros Hn. unfold Qnat. replace 0%Q with (inject_Z 0) by done.
  rewrite <- Zlt_Qlt. lia.
Qed.

Lemma qsum_quotients (g : nat -> nat) (d : Q) (l : list nat) :
  (qsum (map (fun c => Qnat (g c) / d) l) == Qnat (sum_list (map g l)) / d)%Q.
Proof.
  induction l as [|c l IH]; simpl.
  - by vm_compute.
  - rewrite IH, Qnat_add. unfold Qdiv. ring.
Qed.

Lemma fitted_priors_values_sum (labels : list nat) :
  labels <> [] -> (qsum (PyDict.values (fitted_priors labels)) == 1)%Q.
Proof.
  intros Hne. unfold fitted_priors, PyDict.values. rewrite map_map. simpl.
  rewrite (qsum_quotients (count_occ Nat.eq_dec labels)).
  rewrite sum_list_count_occ by apply labels_below_num_classes.
  assert (0 < Qnat (length labels))%Q.
  { apply Qnat_pos. destruct labels; [done | simpl; lia]. }
  field. qlra.
Qed.

Lemma fitted_priors_get (labels : list nat) (c : nat) :
  PyDict.get c (fitted_priors labels)
  = if decide (c < num_classes labels)
    then Some (Qnat (count_occ Nat.eq_dec labels c) / Qnat (length labels))%Q
    else None.
Proof. apply (get_map_seq (fun c => _ / _)%Q). Qed.

(** C6.  For a non-empty label vector with one label per example, [fit]
    returns and the stored prior of every observed class is its number of
    examples divided by the number of examples; the stored priors sum to 1
    (in exact arithmetic, hence within any tolerance). *)
Theorem fit_priors_are_relative_frequencies
    (self : NaiveBayes) (features : Tensor2D) (labels : list nat) (delta : Q)
    (Hne : labels <> [])
    (Hlen : length labels = length (t_rows features)) :
  exists st features' priors,
    fit self features labels delta = (st, features', Ok tt)
    /\ class_priors st = Some priors
    /\ (forall c, c ∈ labels ->
          PyDict.get c priors
          = Some (Qnat (count_occ Nat.eq_dec labels c)
                  / Qnat (length labels))%Q)
    /\ (qsum (PyDict.values priors) == 1)%Q
    /\ (Qabs (qsum (PyDict.values priors) - 1) <= 1 / 1000000)%Q.
Proof.
  destruct (fit_returns self features labels delta)
    as (features' & cp & Hfit & _); [lia|].
  eexists _, features', (fitted_priors labels).
  split; [exact Hfit|]. split; [done|].
  pose proof (fitted_priors_values_sum labels Hne) as Hsum.
  split; [|split; [done|]].
  - intros c Hc. rewrite fitted_priors_get.
    pose proof (labels_below_num_classes labels) as Hb.
    rewrite Forall_forall in Hb. specialize (Hb c Hc).
    by case_decide.
  - rewrite Hsum. by vm_compute.
Qed.

Lemma fit_priors_are_relative_frequencies_witness :
  exists st features' priors,
    fit init features0 labels0 1%Q = (st, features', Ok tt)
    /\ class_priors st = Some priors
    /\ (forall c, c ∈ labels0 ->
          PyDict.get c priors
          = Some (Qnat (count_occ Nat.eq_dec labels0 c)
                  / Qnat (length labels0))%Q)
    /\ (qsum (PyDict.values priors) == 1)%Q
    /\ (Qabs (qsum (PyDict.values priors) - 1) <= 1 / 1000000)%Q.
Proof.
  apply (fit_priors_are_relative_frequencies init features0 labels0 1%Q).
  - discriminate.
  - reflexivity.
Defined.

(** *** Smoothed word counts *)

Lemma Forall_class_rows (P : list Q -> Prop) c rows labels :
  Forall P rows -> Forall P (class_rows c rows labels).
Proof.
  intros H. revert labels. induction H as [|r rows Hr _ IH];
    intros [|l labels]; simpl; try constructor.
  destruct (Nat.eqb l c); [constructor|]; auto.
Qed.

Lemma vadd_length (a b : list Q) n :
  length a = n -> length b = n -> length (vadd a b) = n.
Proof. intros Ha Hb. unfold vadd. rewrite length_zip_with. lia. Qed.

Lemma vadd_nonneg (a b : list Q) :
  Forall (fun x => (0 <= x)%Q) a -> Forall (fun x => (0 <= x)%Q) b ->
  Forall (fun x => (0 <= x)%Q) (vadd a b).
Proof.
  intros Ha. revert b. induction Ha as [|x a Hx _ IH]; intros b Hb; [constructor|].
  destruct Hb as [|y b Hy Hb]; simpl; constructor; [qlra | by apply IH].
Qed.

Lemma vsum_invariant (P : list Q -> Prop) (rs : list (list Q)) :
  (forall a b, P a -> P b -> P (vadd a b)) ->
  rs <> [] -> Forall P rs -> P (vsum rs).
Proof.
  intros Hadd Hne HP. destruct HP as [|r rs Hr Hrs]; [done|]. simpl.
  clear Hne. revert r Hr. induction Hrs as [|r' rs Hr' _ IH]; intros r Hr;
    simpl; [done|].
  apply IH, Hadd; done.
Qed.

Lemma qsum_nonneg (v : list Q) :
  Forall (fun x => (0 <= x)%Q) v -> (0 <= qsum v)%Q.
Proof. induction 1 as [|x v Hx _ IH]; simpl; qlra. Qed.

Lemma qsum_smooth_numerators (v : list Q) (delta d : Q) :
  (qsum (map (fun w => (w + delta) / d) v)
   == (qsum v + delta * Qnat (length v)) / d)%Q.
Proof.
  induction v as [|w v IH].
  - simpl. change (Qnat 0) with 0%Q. unfold Qdiv. ring.
  - change (length (w :: v)) with (1 + length v). simpl map. simpl qsum.
    rewrite IH, Qnat_add. unfold Qdiv. change (Qnat 1) with 1%Q. ring.
Qed.

Section smooth_facts.
Variables (W : list Q) (delta : Q) (vocab : nat).
Hypothesis Hshape : length W = vocab.
Hypothesis Hnonneg : Forall (fun x => (0 <= x)%Q) W.
Hypothesis Hdelta : (0 < delta)%Q.
Hypothesis Hvocab : 0 < vocab.

Lemma smooth_denominator_pos : (0 < qsum W + delta * Qnat vocab)%Q.
Proof using Hnonneg Hdelta Hvocab.
  pose proof (qsum_nonneg W Hnonneg).
  pose proof (Qmult_lt_0_compat _ _ Hdelta (Qnat_pos vocab Hvocab)).
  qlra.
Qed.

Lemma smooth_is_smoothed : smooth W delta vocab = map Fin (smoothed W delta vocab).
Proof using Hnonneg Hdelta Hvocab.
  apply smooth_numbers. pose proof smooth_denominator_pos. qlra.
Qed.

Lemma smooth_sums_to_one : (qsum (smoothed W delta vocab) == 1)%Q.
Proof using All.
  unfold smoothed. rewrite qsum_smooth_numerators, Hshape.
  pose proof smooth_denominator_pos. field. qlra.
Qed.

Lemma smooth_positive : Forall (fun p => (0 < p)%Q) (smoothed W delta vocab).
Proof using Hnonneg Hdelta Hvocab.
  unfold smoothed. apply Forall_fmap.
  eapply Forall_impl; [exact Hnonneg|]. intros w Hw. simpl in *.
  apply Qlt_shift_div_l; [apply smooth_denominator_pos |].
  rewrite Qmult_0_l. qlra.
Qed.

Lemma smooth_length : length (smooth W delta vocab) = vocab.
Proof using Hshape. unfold smooth. by rewrite length_map. Qed.

Lemma smoothed_length : length (smoothed W delta vocab) = vocab.
Proof using Hshape. unfold smoothed. by rewrite length_map. Qed.
End smooth_facts.

Lemma is_count_nonneg (x : Q) : is_count x -> (0 <= x)%Q.
Proof.
  intros [n ->]. unfold Qnat. replace 0%Q with (inject_Z 0) by done.
  rewrite <- Zle_Qle. lia.
Qed.

Lemma exact_counts_nonneg features : exact_counts features -> nonneg_counts features.
Proof.
  intros [H _]. unfold nonneg_counts.
  eapply Forall_impl; [exact H|]. intros row Hrow. simpl in *.
  eapply Forall_impl; [exact Hrow|]. apply is_count_nonneg.
Qed.

Lemma moderate_pos (delta : Q) : moderate delta -> (0 < delta)%Q.
Proof. intros [H _]. eapply Qlt_le_trans; [|exact H]. by vm_compute. Qed.


(** Entry [j] of [vsum rs] is the sum of the entries [j] of the vectors. *)
Lemma vsum_lookup (rs : list (list Q)) (n j : nat) :
  rs <> [] -> Forall (fun r => length r = n) rs -> j < n ->
  exists w, vsum rs !! j = Some w
            /\ (w == qsum (map (fun r => default 0%Q (r !! j)) rs))%Q.
Proof.
  intros Hne Hall Hj. destruct Hall as [|r rs Hr Hrs]; [done|]. clear Hne.
  simpl. revert r Hr. induction Hrs as [|r' rs Hr' _ IH]; intros r Hr; simpl.
  - destruct (lookup_lt_is_Some_2 r j) as [x Hx]; [lia|].
    exists x. rewrite Hx. simpl. split; [done|]. ring.
  - destruct (IH (vadd r r')) as (w & Hw & Hsum).
    { by apply vadd_length. }
    exists w. split; [done|]. rewrite Hsum. simpl.
    unfold vadd. rewrite lookup_zip_with.
    destruct (lookup_lt_is_Some_2 r j) as [x Hx]; [lia|].
    destruct (lookup_lt_is_Some_2 r' j) as [y Hy]; [lia|].
    rewrite Hx, Hy. simpl. ring.
Qed.

(** [W_c[j]] is the sum over the examples labelled [c] of their count of
    word [j]. *)
Lemma word_counts_entry features labels c j :
  well_shaped features -> length labels = length (t_rows features) ->
  c ∈ labels -> j < t_ncols features ->
  exists w, word_counts features labels c !! j = Some w
            /\ (w == qsum (map (fun r => default 0%Q (r !! j))
                               (class_rows c (t_rows features) labels)))%Q.
Proof.
  intros Hws Hlen Hc Hj. unfold word_counts.
  apply (vsum_lookup _ (t_ncols features)); [|by apply Forall_class_rows|done].
  by apply class_rows_labelled.
Qed.

Lemma word_counts_shape features labels c :
  well_shaped features -> c ∈ labels ->
  length labels = length (t_rows features) ->
  length (word_counts features labels c) = t_ncols features.
Proof.
  intros Hws Hc Hlen. unfold word_counts.
  apply (vsum_invariant (fun r => length r = t_ncols features)).
  - intros a b. apply vadd_length.
  - by apply class_rows_labelled.
  - by apply Forall_class_rows.
Qed.

Lemma word_counts_nonneg features labels c :
  nonneg_counts features ->
  Forall (fun x => (0 <= x)%Q) (word_counts features labels c).
Proof.
  intros Hnn. unfold word_counts.
  destruct (class_rows c (t_rows features) labels) eqn:E; [constructor|].
  rewrite <- E. apply (vsum_invariant (Forall (fun x => (0 <= x)%Q))).
  - apply vadd_nonneg.
  - by rewrite E.
  - by apply Forall_class_rows.
Qed.

(** C7 (as amended).  For a training set over a non-empty vocabulary whose
    word counts add up exactly, with one label per example, and for a
    moderate [delta > 0], the conditional probability vector stored for a
    class that has an example holds numbers that sum to 1 over the
    vocabulary (in exact arithmetic, hence within any tolerance) and are all
    strictly positive. *)
Theorem fit_conditionals_are_distributions
    (self : NaiveBayes) (features : Tensor2D) (labels : list nat) (delta : Q)
    (c : nat)
    (Hshape : well_shaped features)
    (Hcounts : exact_counts features)
    (Hvocab : 0 < t_ncols features)
    (Hlen : length labels = length (t_rows features))
    (Hdelta : moderate delta)
    (Hc : c ∈ labels) :
  exists st features' cp v,
    fit self features labels delta = (st, features', Ok tt)
    /\ conditional_probabilities st = Some cp
    /\ PyDict.get c cp = Some (map Fin v)
    /\ length v = t_ncols features
    /\ (qsum v == 1)%Q
    /\ (Qabs (qsum v - 1) <= 1 / 1000000)%Q
    /\ Forall (fun p => (0 < p)%Q) v.
Proof.
  destruct (fit_returns self features labels delta)
    as (features' & cp & Hfit & _ & _ & Hcp); [lia|].
  pose proof (word_counts_shape _ _ _ Hshape Hc Hlen) as HW.
  pose proof (word_counts_nonneg _ labels c (exact_counts_nonneg _ Hcounts)) as HW0.
  pose proof (moderate_pos _ Hdelta) as Hpos.
  eexists _, features', cp,
    (smoothed (word_counts features labels c) delta (t_ncols features)).
  split; [exact Hfit|]. split; [done|]. split.
  { rewrite Hcp.
    pose proof (class_rows_labelled c _ _ (eq_sym Hlen) Hc).
    destruct (class_rows c (t_rows features) labels) eqn:E; [done|].
    by rewrite smooth_is_smoothed. }
  pose proof (smooth_sums_to_one _ delta _ HW HW0 Hpos Hvocab) as Hsum.
  split; [by apply smoothed_length|]. split; [done|]. split.
  - rewrite Hsum. by vm_compute.
  - by apply smooth_positive.
Qed.

Lemma well_shaped_features0 : well_shaped features0.
Proof. repeat constructor. Qed.

Lemma nonneg_counts_features0 : nonneg_counts features0.
Proof. repeat constructor; by vm_compute. Qed.

Lemma fit_conditionals_are_distributions_witness :
  exists st features' cp v,
    fit init features0 labels0 1%Q = (st, features', Ok tt)
    /\ conditional_probabilities st = Some cp
    /\ PyDict.get 1 cp = Some (map Fin v)
    /\ length v = 3
    /\ (qsum v == 1)%Q
    /\ (Qabs (qsum v - 1) <= 1 / 1000000)%Q
    /\ Forall (fun p => (0 < p)%Q) v.
Proof.
  apply (fit_conditionals_are_distributions init features0 labels0 1%Q 1).
  - exact well_shaped_features0.
  - exact exact_counts_features0.
  - simpl. lia.
  - reflexivity.
  - exact moderate_one.
  - unfold labels0. repeat constructor.
Defined.

(** C7 (as stated) fails on a training set without a vocabulary: the vector
    stored for the class of its example is empty, and sums to 0. *)
Lemma fit_conditionals_of_empty_vocabulary :
  well_shaped features_no_vocab
  /\ 0 ∈ labels_blank
  /\ (0 < 1)%Q
  /\ conditional_probabilities (fit init features_no_vocab labels_blank 1%Q).1.1
     = Some [(0, [])]
  /\ forall v : list Q,
       conditional_probabilities (fit init features_no_vocab labels_blank 1%Q).1.1
       = Some [(0, map Fin v)] ->
       ~ (qsum v == 1)%Q.
Proof.
  split; [repeat constructor|]. split; [apply list_elem_of_here|].
  split; [done|]. split; [reflexivity|].
  intros v H. change (conditional_probabilities _) with
    (Some [(0, @nil (ext Q))]) in H.
  destruct v as [|q v]; [|discriminate]. by vm_compute.
Qed.

(** *** Class ids without an example *)

(** [fit] stores a prior for every class id below the largest label. *)
Lemma fit_priors_keys self features labels delta :
  exists priors,
    class_priors (fit self features labels delta).1.1 = Some priors
    /\ PyDict.keys priors = seq 0 (num_classes labels).
Proof.
  exists (fitted_priors labels). split.
  - unfold fit. unfold bincount. rewrite imap_of_seq.
    by destruct (estimate_conditional_probabilities _ _ _ _) as [? [?|?]].
  - unfold fitted_priors, PyDict.keys. rewrite map_map. apply map_id.
Qed.

(** [estimate_class_priors] has a key exactly for the labels that occur. *)
Lemma estimate_class_priors_keys labels c :
  c ∈ PyDict.keys (estimate_class_priors labels) <-> c ∈ labels.
Proof.
  unfold estimate_class_priors, PyDict.keys. rewrite map_map. simpl.
  rewrite map_id. unfold unique. rewrite list_elem_of_filter, elem_of_seq.
  split; [tauto|]. intros Hc. split; [done|].
  pose proof (labels_below_num_classes labels) as Hb.
  rewrite Forall_forall in Hb. specialize (Hb c Hc). lia.
Qed.

(** C5.  On the labels [0; 2] the priors [fit] stores have a key for the
    class id 1, which has no example, with the value 0; inference on the
    classifier so fitted then raises [KeyError] at that key. *)
Theorem fit_stores_zero_prior_for_absent_class :
  (1 ∉ labels_gap)
  /\ exists st features',
       fit init features_gap labels_gap 1%Q = (st, features', Ok tt)
       /\ class_priors st
          = Some [(0, (1 # 2)%Q); (1, (0 # 2)%Q); (2, (1 # 2)%Q)]
       /\ PyDict.keys (default [] (conditional_probabilities st)) = [0; 2]
       /\ estimate_class_posteriors st [1; 0]%Q = Raise (KeyError 1).
Proof.
  split.
  - unfold labels_gap. intros H.
    repeat (apply elem_of_cons in H as [H|H]; [discriminate|]).
    by apply elem_of_nil in H.
  - eexists _, _. split; [reflexivity|]. repeat split.
Qed.

(** *** The caller's features tensor *)

(** C10.  On the scenario of the specification [fit] returns with the
    first row of the caller's features tensor changed from [1, 0, 1] to
    [1, 1, 2], the word counts of class 0. *)
Theorem fit_overwrites_first_row_of_class :
  exists st features',
    fit init features0 labels0 1%Q = (st, features', Ok tt)
    /\ t_rows features0 !! 0 = Some [1; 0; 1]%Q
    /\ t_rows features' !! 0 = Some [1; 1; 2]%Q
    /\ features' <> features0.
Proof.
  eexists _, _. split; [reflexivity|]. repeat split. discriminate.
Qed.

(** ** Inference before training *)

(** C3.  On a classifier on which [fit] was never called, each of
    [estimate_class_posteriors], [predict] and [predict_proba] raises an
    exception that says the model is not trained, whatever the feature. *)
Theorem inference_before_fit_raises_not_trained (feature : list Q) :
  (exists e, estimate_class_posteriors init feature = Raise e
             /\ is_not_trained_error e)
  /\ (exists e, predict init feature = Raise e /\ is_not_trained_error e)
  /\ (exists e, predict_proba init feature = Raise e /\ is_not_trained_error e).
Proof.
  repeat split; eexists; (split; [reflexivity|]); unfold is_not_trained_error;
    auto.
Qed.

(** ** [torch.argmax] and [torch.softmax] *)

Ltac beats_cases :=
  unfold beats in *;
  repeat match goal with
         | x : ext R |- _ => destruct x
         end;
  repeat match goal with
         | H : context [Rlt_dec ?a ?b] |- _ => destruct (Rlt_dec a b)
         | |- context [Rlt_dec ?a ?b] => destruct (Rlt_dec a b)
         end;
  try done; try (exfalso; rlra).

Lemma beats_irrefl (x : ext R) : beats x x = false.
Proof. beats_cases. Qed.

Lemma beats_below (x y best : ext R) :
  beats x best = true -> beats y best = false -> beats x y = true.
Proof. intros. beats_cases. Qed.

Lemma beats_not_above (x y best : ext R) :
  beats x best = true -> beats y best = false -> beats y x = false.
Proof. intros. beats_cases. Qed.

Lemma beats_Fin (x y : R) : beats (Fin x) (Fin y) = true <-> (y < x)%R.
Proof. unfold beats. by destruct (Rlt_dec y x). Qed.

Lemma not_beats_Fin (x y : R) : beats (Fin x) (Fin y) = false <-> (x <= y)%R.
Proof.
  unfold beats. destruct (Rlt_dec y x); split; try done; intros; rlra.
Qed.

Lemma argmax_from_first_max (t : list (ext R)) : forall pre best_i best,
  first_max pre best_i -> pre !! best_i = Some best ->
  first_max (pre ++ t) (argmax_from best_i best (length pre) t).
Proof.
  induction t as [|x t IH]; intros pre best_i best Hmax Hbest; simpl.
  - by rewrite app_nil_r.
  - destruct Hmax as (b & Hb & Hle & Hlt).
    assert (b = best) as -> by congruence.
    assert (Hi : best_i < length pre) by by eapply lookup_lt_Some.
    replace (pre ++ x :: t) with ((pre ++ [x]) ++ t) by by rewrite <- app_assoc.
    replace (S (length pre)) with (length (pre ++ [x]))
      by (rewrite length_app; simpl; lia).
    destruct (beats x best) eqn:Hx.
    + apply IH; [|by rewrite lookup_app_r, Nat.sub_diag by lia].
      exists x. split; [by rewrite lookup_app_r, Nat.sub_diag by lia|]. split.
      * intros j y Hj. apply lookup_app_Some in Hj as [Hj|[_ Hj]].
        -- apply Hle in Hj. by eapply beats_not_above.
        -- apply list_lookup_singleton_Some in Hj as [_ <-].
           apply beats_irrefl.
      * intros j y Hjlt Hj. rewrite lookup_app_l in Hj by done.
        apply Hle in Hj. by eapply beats_below.
    + apply IH; [|by rewrite lookup_app_l].
      exists best. split; [by rewrite lookup_app_l|]. split.
      * intros j y Hj. apply lookup_app_Some in Hj as [Hj|[_ Hj]].
        -- by apply Hle in Hj.
        -- by apply list_lookup_singleton_Some in Hj as [_ <-].
      * intros j y Hjlt Hj. rewrite lookup_app_l in Hj by lia.
        by eapply Hlt.
Qed.

Lemma argmax_first_max (t : list (ext R)) (c : nat) :
  argmax t = Ok c -> first_max t c.
Proof.
  destruct t as [|x t]; simpl; [done|]. intros [= <-].
  apply (argmax_from_first_max t [x] 0 x); [|done].
  exists x. split; [done|]. split.
  - intros [|j] y Hj; simpl in Hj; [|done]. injection Hj as <-.
    apply beats_irrefl.
  - intros j y Hj. lia.
Qed.

Lemma argmax_nonempty (t : list (ext R)) : t <> [] -> exists c, argmax t = Ok c.
Proof. destruct t; [done|]. intros _. by eexists. Qed.

Lemma rsum_exp_pos (t : list R) : t <> [] -> (0 < rsum (map exp t))%R.
Proof.
  destruct t as [|x t]; [done|]. intros _. simpl.
  assert (0 <= rsum (map exp t))%R.
  { induction t as [|y t IH]; simpl; [rlra|]. pose proof (exp_pos y). rlra. }
  pose proof (exp_pos x). rlra.
Qed.

Lemma rsum_scaled (v : list R) (z : R) :
  rsum (map (fun x => (x / z)%R) v) = (rsum v / z)%R.
Proof.
  induction v as [|x v IH]; simpl; [unfold Rdiv; ring|].
  rewrite IH. unfold Rdiv. ring.
Qed.

Lemma rsum_nonneg_bound (v : list R) (x : R) :
  Forall (fun y => (0 <= y)%R) v -> x ∈ v -> (x <= rsum v)%R.
Proof.
  induction 1 as [|y v Hy Hv IH]; intros Hx; [by apply elem_of_nil in Hx|].
  assert (0 <= rsum v)%R.
  { clear -Hv. induction Hv; simpl; rlra. }
  simpl. apply elem_of_cons in Hx as [->|Hx]; [rlra|].
  specialize (IH Hx). rlra.
Qed.

Lemma real_softmax_is_distribution (t : list R) :
  t <> [] ->
  Forall (fun p => (0 <= p <= 1)%R) (real_softmax t)
  /\ rsum (real_softmax t) = 1%R.
Proof.
  intros Hne. pose proof (rsum_exp_pos t Hne) as Hz. unfold real_softmax.
  set (z := rsum (map exp t)) in *. split.
  - apply Forall_fmap, Forall_forall. intros x Hx. simpl.
    assert (exp x <= z)%R.
    { apply rsum_nonneg_bound; [|by apply list_elem_of_fmap_2].
      apply Forall_fmap, Forall_forall. intros y _. simpl.
      left. apply exp_pos. }
    pose proof (exp_pos x). split.
    + apply Rmult_le_pos; [rlra|]. left. by apply Rinv_0_lt_compat.
    + apply (Rmult_le_reg_r z); [done|]. unfold Rdiv.
      rewrite Rmult_assoc, Rinv_l by rlra. rlra.
  - rewrite <- (map_map exp (fun y => (y / z)%R)), rsum_scaled.
    fold z. field. rlra.
Qed.

Lemma softmax_length (t : list (ext R)) : length (softmax t) = length t.
Proof. unfold softmax. destruct (_ || _); by rewrite length_map. Qed.

(** On a tensor of numbers [softmax] is the quotient of the exponentials. *)
Lemma softmax_numbers (t : list R) :
  t <> [] -> softmax (map Fin t) = map Fin (real_softmax t).
Proof.
  intros Hne. unfold softmax, real_softmax.
  assert (Hnan : existsb is_nan (map (@Fin R) t) = false)
    by (clear; induction t; simpl; auto).
  assert (Hinf : existsb is_pinf (map (@Fin R) t) = false)
    by (clear; induction t; simpl; auto).
  assert (Hninf : forallb is_ninf (map (@Fin R) t) = false)
    by (destruct t; [done | reflexivity]).
  rewrite Hnan, Hinf, Hninf. simpl. rewrite !map_map. simpl.
  by rewrite (map_ext (fun x => xexp (Fin x)) exp) by done.
Qed.

(** ** The log-posterior loop *)

Lemma setitem_length t i x t' : setitem t i x = Ok t' -> length t' = length t.
Proof.
  unfold setitem. destruct (Nat.ltb i (length t)); [|done].
  intros [= <-]. apply length_insert.
Qed.

Lemma posteriors_loop_length priors conditionals feature class_labels :
  forall t t',
    posteriors_loop priors conditionals feature class_labels t = Ok t' ->
    length t' = length t.
Proof.
  induction class_labels as [|c ks IH]; intros t t'; simpl.
  - by intros [= <-].
  - destruct (PyDict.getitem c priors); [|done]. simpl.
    destruct (PyDict.getitem c conditionals); [|done]. simpl.
    destruct (torch_mul _ _); [|done]. simpl.
    destruct (setitem t c _) as [t1|] eqn:E; [|done]. simpl.
    intros H. apply IH in H. apply setitem_length in E. lia.
Qed.

Lemma torch_mul_same_length (feature : list Q) (t : list (ext R)) :
  length feature = length t ->
  torch_mul feature t = Ok (zip_with scale feature t).
Proof. intros Hlen. unfold torch_mul. by rewrite Hlen, Nat.eqb_refl. Qed.

Lemma posteriors_loop_returns priors conditionals feature class_labels :
  NoDup class_labels ->
  forall t,
    (forall c, c ∈ class_labels ->
       c < length t
       /\ exists prior conditional_prob products,
            PyDict.get c priors = Some prior
            /\ PyDict.get c conditionals = Some conditional_prob
            /\ torch_mul feature (map torch_log conditional_prob)
               = Ok products) ->
    exists t',
      posteriors_loop priors conditionals feature class_labels t = Ok t'
      /\ length t' = length t
      /\ (forall c, c ∉ class_labels -> t' !! c = t !! c)
      /\ forall c prior conditional_prob products,
           c ∈ class_labels ->
           PyDict.get c priors = Some prior ->
           PyDict.get c conditionals = Some conditional_prob ->
           torch_mul feature (map torch_log conditional_prob) = Ok products ->
           t' !! c = Some (xadd (torch_log (Fin prior)) (xsum products)).
Proof.
  induction 1 as [|k ks Hk Hks IH]; intros t Hall; simpl.
  - exists t. do 3 (split; [done|]). intros c ? ? ? Hc.
    by apply elem_of_nil in Hc.
  - destruct (Hall k) as (Hlt & prior & cond & prods & Hp & Hc & Hmul);
      [apply list_elem_of_here|].
    unfold PyDict.getitem. rewrite Hp, Hc. simpl. rewrite Hmul. simpl.
    unfold setitem. apply Nat.ltb_lt in Hlt as Hltb. rewrite Hltb. simpl.
    set (entry := xadd _ _).
    destruct (IH (<[k := entry]> t)) as (t' & Hloop & Hlen' & Hout & Hin).
    { intros c Hcks. rewrite length_insert. apply Hall.
      by apply list_elem_of_further. }
    exists t'. split; [exact Hloop|]. split.
    { by rewrite Hlen', length_insert. }
    split.
    + intros c Hcn. apply not_elem_of_cons in Hcn as [Hne Hcn].
      rewrite Hout by done. by apply list_lookup_insert_ne.
    + intros c prior' cond' prods' Hcin Hp' Hc' Hmul'.
      apply elem_of_cons in Hcin as [->|Hcin]; [|by eapply Hin].
      rewrite Hp in Hp'. rewrite Hc in Hc'. injection Hp' as <-.
      injection Hc' as <-. rewrite Hmul in Hmul'. injection Hmul' as <-.
      rewrite Hout by done. by rewrite list_lookup_insert_eq.
Qed.

(** *** Log-posteriors of positive probabilities are numbers *)

Lemma torch_log_positive (q : Q) :
  (0 < q)%Q -> torch_log (Fin q) = Fin (ln (Q2R q)).
Proof. intros Hq. simpl. destruct (Qlt_le_dec 0 q); [done | qlra]. Qed.

Lemma xsum_numbers (v : list R) : xsum (map Fin v) = Fin (rsum v).
Proof.
  induction v as [|x v IH]; [done|].
  cbn [map xsum fold_right]. fold (xsum (map Fin v)). by rewrite IH.
Qed.

Lemma map_torch_log_positive (conditional_prob : list Q) :
  Forall (fun p => (0 < p)%Q) conditional_prob ->
  map torch_log (map Fin conditional_prob)
  = map Fin (map (fun p => ln (Q2R p)) conditional_prob).
Proof.
  induction 1 as [|p ps Hp _ IH]; [done|].
  cbn [map]. by rewrite torch_log_positive, IH.
Qed.

Lemma zip_with_scale_numbers (feature : list Q) (v : list R) :
  zip_with scale feature (map Fin v)
  = map Fin (zip_with (fun x y => (Q2R x * y)%R) feature v).
Proof.
  revert v. induction feature as [|x feature IH]; intros [|y v]; simpl;
    try done.
  by rewrite IH.
Qed.

Lemma zip_with_map_r {A B C D : Type} (f : A -> C -> D) (g : B -> C)
    (l : list A) (k : list B) :
  zip_with f l (map g k) = zip_with (fun x y => f x (g y)) l k.
Proof.
  revert k. induction l as [|x l IH]; intros [|y k]; simpl; try done.
  by rewrite IH.
Qed.

(** The log-posterior of a class whose prior and conditional probabilities
    are positive numbers. *)
Lemma log_posterior_number (prior : Q) (conditional_prob feature : list Q) :
  (0 < prior)%Q -> Forall (fun p => (0 < p)%Q) conditional_prob ->
  xadd (torch_log (Fin prior))
       (xsum (zip_with scale feature (map torch_log (map Fin conditional_prob))))
  = Fin (ln (Q2R prior)
         + rsum (zip_with (fun x p => Q2R x * ln (Q2R p)) feature
                          conditional_prob))%R.
Proof.
  intros Hprior Hcond.
  rewrite torch_log_positive, map_torch_log_positive by done.
  by rewrite zip_with_scale_numbers, xsum_numbers, zip_with_map_r.
Qed.

Lemma lookup_map {A B : Type} (f : A -> B) (l : list A) (i : nat) :
  map f l !! i = f <$> l !! i.
Proof. exact (list_lookup_fmap f l i). Qed.

Lemma lookup_map_Fin {A : Type} (v : list A) (i : nat) (x : A) :
  map Fin v !! i = Some (Fin x) <-> v !! i = Some x.
Proof.
  rewrite lookup_map. destruct (v !! i); simpl; split; congruence.
Qed.


Lemma all_numbers {A : Type} (t : list (ext A)) :
  (forall i x, t !! i = Some x -> exists a, x = Fin a) ->
  exists v, t = map Fin v.
Proof.
  induction t as [|x t IH]; intros H; [by exists []|].
  destruct (H 0 x eq_refl) as [a ->].
  destruct IH as [v ->]; [intros i y Hy; by apply (H (S i))|].
  by exists (a :: v).
Qed.

(** ** Fitted models *)

Lemma valid_training_scenario : valid_training features0 labels0 1%Q.
Proof.
  split; try done.
  - exact well_shaped_features0.
  - exact nonneg_counts_features0.
  - repeat constructor.
Qed.

Lemma exact_feature_scenario : exact_feature feature0.
Proof.
  split; [|by vm_compute].
  repeat constructor; (by exists 0) || (by exists 1).
Qed.

Lemma dense_elem_of labels c : dense labels -> c < num_classes labels -> c ∈ labels.
Proof.
  unfold dense. rewrite Forall_forall. intros H Hc. apply H, elem_of_seq. lia.
Qed.

Lemma prior_positive labels c :
  c ∈ labels ->
  (0 < Qnat (count_occ Nat.eq_dec labels c) / Qnat (length labels))%Q.
Proof.
  intros Hc. apply Qlt_shift_div_l.
  - apply Qnat_pos. destruct labels; [by apply elem_of_nil in Hc | simpl; lia].
  - rewrite Qmult_0_l. apply Qnat_pos.
    apply count_occ_In, list_elem_of_In, Hc.
Qed.

(** With a positive [delta] the vector [smooth] returns holds positive
    numbers, whatever the width of the vocabulary. *)
Lemma smooth_positive_any_width (W : list Q) (delta : Q) :
  Forall (fun x => (0 <= x)%Q) W -> (0 < delta)%Q ->
  smooth W delta (length W) = map Fin (smoothed W delta (length W))
  /\ Forall (fun p => (0 < p)%Q) (smoothed W delta (length W)).
Proof.
  intros HW Hd. destruct W as [|w W]; [by split; [|constructor]|].
  split; [apply smooth_is_smoothed | apply smooth_positive];
    (done || (simpl; lia)).
Qed.

(** What a classifier fitted on a valid training set holds, and what
    [estimate_class_posteriors] returns on it. *)
Lemma fitted_model self features labels delta feature :
  valid_training features labels delta ->
  length feature = t_ncols features ->
  exists st features' priors conditionals log_posteriors,
    fit self features labels delta = (st, features', Ok tt)
    /\ class_priors st = Some priors
    /\ conditional_probabilities st = Some conditionals
    /\ priors <> [] /\ conditionals <> []
    /\ estimate_class_posteriors st feature = Ok (map Fin log_posteriors)
    /\ length log_posteriors = num_classes labels
    /\ forall c, c < num_classes labels ->
         exists prior conditional_prob,
           PyDict.get c priors = Some prior
           /\ PyDict.get c conditionals = Some (map Fin conditional_prob)
           /\ length conditional_prob = length feature
           /\ (0 < prior)%Q
           /\ Forall (fun p => (0 < p)%Q) conditional_prob
           /\ log_posteriors !! c
              = Some (ln (Q2R prior)
                      + rsum (zip_with (fun x p => Q2R x * ln (Q2R p))
                                       feature conditional_prob))%R.
Proof.
  intros [Hshape Hcounts Hlen Hne Hdense Hdelta] Hfeature.
  destruct (fit_returns self features labels delta)
    as (features' & cp & Hfit & _ & _ & Hcp); [lia|].
  set (cond := fun c => smoothed (word_counts features labels c) delta
                                 (t_ncols features)).
  set (prior := fun c => (Qnat (count_occ Nat.eq_dec labels c)
                          / Qnat (length labels))%Q).
  assert (Hstored : forall c, c < num_classes labels ->
            PyDict.get c (fitted_priors labels) = Some (prior c)
            /\ PyDict.get c cp = Some (map Fin (cond c))
            /\ length (cond c) = length feature
            /\ (0 < prior c)%Q
            /\ Forall (fun p => (0 < p)%Q) (cond c)).
  { intros c Hc. pose proof (dense_elem_of _ _ Hdense Hc) as Hin.
    pose proof (word_counts_shape _ _ _ Hshape Hin Hlen) as HW.
    destruct (smooth_positive_any_width (word_counts features labels c) delta)
      as [Hnum Hpos]; [by apply word_counts_nonneg | done |].
    rewrite HW in Hnum, Hpos.
    rewrite fitted_priors_get, Hcp. rewrite decide_True by lia.
    pose proof (class_rows_labelled c _ _ (eq_sym Hlen) Hin).
    split; [done|]. split.
    { destruct (class_rows c (t_rows features) labels); [done|].
      by rewrite Hnum. }
    split. { rewrite Hfeature. by apply smoothed_length. }
    split; [by apply prior_positive | done]. }
  assert (HK : 0 < num_classes labels).
  { destruct labels; [done | unfold num_classes; lia]. }
  assert (Hklen : length (fitted_priors labels) = num_classes labels).
  { unfold fitted_priors. by rewrite length_map, length_seq. }
  assert (Hkeys : PyDict.keys (fitted_priors labels)
                  = seq 0 (num_classes labels)).
  { unfold fitted_priors, PyDict.keys. rewrite map_map. apply map_id. }
  assert (Hmul : forall c, c < num_classes labels ->
            torch_mul feature (map torch_log (map Fin (cond c)))
            = Ok (zip_with scale feature (map torch_log (map Fin (cond c))))).
  { intros c Hc. destruct (Hstored c Hc) as (_ & _ & Hl & _).
    apply torch_mul_same_length. by rewrite !length_map. }
  destruct (posteriors_loop_returns (fitted_priors labels) cp feature
              (PyDict.keys (fitted_priors labels)))
    with (t := replicate (length (fitted_priors labels)) (Fin 0%R))
    as (lp & Hloop & Hlplen & _ & Hentries).
  { rewrite Hkeys. apply NoDup_seq. }
  { intros c Hc. rewrite Hkeys in Hc. apply elem_of_seq in Hc.
    rewrite length_replicate, Hklen. split; [lia|].
    destruct (Hstored c) as (Hp & Hc' & _); [lia|].
    eexists _, _, _. split; [exact Hp|]. split; [exact Hc'|].
    apply Hmul. lia. }
  rewrite length_replicate, Hklen in Hlplen.
  assert (Hentry : forall c, c < num_classes labels ->
            lp !! c
            = Some (Fin (ln (Q2R (prior c))
                         + rsum (zip_with (fun x p => Q2R x * ln (Q2R p))
                                          feature (cond c)))%R)).
  { intros c Hc. destruct (Hstored c Hc) as (Hp & Hc' & _ & Hppos & Hcpos).
    rewrite (Hentries c _ _ _ ltac:(rewrite Hkeys; apply elem_of_seq; lia)
               Hp Hc' (Hmul c Hc)).
    by rewrite log_posterior_number. }
  destruct (all_numbers lp) as [v ->].
  { intros i x Hx. apply lookup_lt_Some in Hx as Hi.
    rewrite Hentry in Hx by lia. injection Hx as <-. by eexists. }
  rewrite length_map in Hlplen.
  eexists _, features', (fitted_priors labels), cp, v.
  split; [exact Hfit|]. do 2 (split; [done|]).
  split. { intros E. rewrite E in Hklen. simpl in Hklen. lia. }
  split. { intros ->. destruct (Hstored 0) as (_ & ? & _); done. }
  split. { exact Hloop. }
  split; [done|].
  intros c Hc. destruct (Hstored c Hc) as (Hp & Hc' & Hl & Hppos & Hcpos).
  exists (prior c), (cond c). do 5 (split; [done|]).
  apply lookup_map_Fin, Hentry, Hc.
Qed.

(** ** Inference on any classifier *)

Lemma estimate_class_posteriors_length self feature t :
  estimate_class_posteriors self feature = Ok t ->
  exists priors, class_priors self = Some priors /\ length t = length priors.
Proof.
  unfold estimate_class_posteriors.
  destruct (conditional_probabilities self) as [conds|]; [|done].
  destruct (class_priors self) as [priors|]; [|done].
  intros E%posteriors_loop_length. exists priors.
  by rewrite E, length_replicate.
Qed.

Lemma predict_inv self feature c :
  predict self feature = Ok c ->
  exists t, estimate_class_posteriors self feature = Ok t /\ argmax t = Ok c.
Proof.
  unfold predict.
  destruct (py_not (class_priors self) || py_not (conditional_probabilities self));
    [done|].
  destruct (estimate_class_posteriors self feature) as [t|e]; simpl; [|done].
  intros H. by exists t.
Qed.

(** Whatever the classifier holds, a class [predict] returns is the first
    one whose log-posterior no other beats. *)
Lemma predict_returns_first_max self feature c :
  predict self feature = Ok c ->
  exists t, estimate_class_posteriors self feature = Ok t /\ first_max t c.
Proof.
  intros (t & Ht & Hc)%predict_inv. exists t. split; [done|].
  by apply argmax_first_max.
Qed.

Lemma predict_on_fitted st feature priors conditionals t :
  class_priors st = Some priors -> conditional_probabilities st = Some conditionals ->
  priors <> [] -> conditionals <> [] ->
  estimate_class_posteriors st feature = Ok t ->
  predict st feature = argmax t.
Proof.
  intros Hp Hc Hpne Hcne Ht. unfold predict. rewrite Hp, Hc, Ht.
  by destruct priors, conditionals.
Qed.

Lemma predict_proba_on_fitted st feature priors conditionals t :
  class_priors st = Some priors -> conditional_probabilities st = Some conditionals ->
  priors <> [] -> conditionals <> [] ->
  estimate_class_posteriors st feature = Ok t ->
  predict_proba st feature = Ok (softmax t).
Proof.
  intros Hp Hc Hpne Hcne Ht. unfold predict_proba. rewrite Hp, Hc, Ht.
  by destruct priors, conditionals.
Qed.

(** On a tensor of numbers [first_max] is the first maximum in the order of
    the reals. *)
Lemma first_max_numbers (t : list R) (c : nat) :
  first_max (map Fin t) c ->
  exists best,
    t !! c = Some best
    /\ (forall j y, t !! j = Some y -> (y <= best)%R)
    /\ (forall j y, j < c -> t !! j = Some y -> (y < best)%R).
Proof.
  intros (x & Hx & Hle & Hlt). rewrite lookup_map in Hx.
  destruct (t !! c) as [best|] eqn:Hbest; [|done]. injection Hx as <-.
  exists best. split; [done|]. split.
  - intros j y Hy. apply not_beats_Fin, (Hle j). by apply lookup_map_Fin.
  - intros j y Hj Hy. apply beats_Fin, (Hlt j); [done|].
    by apply lookup_map_Fin.
Qed.

Lemma real_softmax_lookup (t : list R) (j : nat) :
  real_softmax t !! j = (fun x => (exp x / rsum (map exp t))%R) <$> t !! j.
Proof. unfold real_softmax. apply lookup_map. Qed.

(** [real_softmax] keeps the order of the entries. *)
Lemma real_softmax_monotone (t : list R) (i j : nat) (x y p q : R) :
  t !! i = Some x -> t !! j = Some y ->
  real_softmax t !! i = Some p -> real_softmax t !! j = Some q ->
  (x <= y)%R -> (p <= q)%R.
Proof.
  intros Hx Hy Hp Hq Hle. rewrite real_softmax_lookup in Hp, Hq.
  rewrite Hx in Hp. rewrite Hy in Hq. simpl in *.
  injection Hp as <-. injection Hq as <-.
  assert (Hz : (0 < rsum (map exp t))%R).
  { apply rsum_exp_pos. intros ->. done. }
  apply Rmult_le_compat_r; [left; by apply Rinv_0_lt_compat|].
  destruct Hle as [Hlt| ->]; [left; by apply exp_increasing | right; done].
Qed.

(** ** Inference on a fitted model *)

(** What [predict] and [predict_proba] return on a classifier fitted on a
    valid training set. *)
Lemma fitted_inference self features labels delta feature :
  valid_training features labels delta ->
  length feature = t_ncols features ->
  exists st features' t c,
    fit self features labels delta = (st, features', Ok tt)
    /\ estimate_class_posteriors st feature = Ok (map Fin t)
    /\ length t = num_classes labels
    /\ predict_proba st feature = Ok (map Fin (real_softmax t))
    /\ predict st feature = Ok c
    /\ first_max (map Fin t) c.
Proof.
  intros Hvalid Hfeature.
  destruct (fitted_model self features labels delta feature Hvalid Hfeature)
    as (st & features' & priors & conds & t
        & Hfit & Hp & Hc & Hpne & Hcne & Ht & Hlen & _).
  pose proof (predict_proba_on_fitted _ _ _ _ _ Hp Hc Hpne Hcne Ht) as Hproba.
  pose proof (predict_on_fitted _ _ _ _ _ Hp Hc Hpne Hcne Ht) as Hpredict.
  assert (Hne : t <> []).
  { intros ->. simpl in Hlen.
    destruct labels; [by destruct Hvalid | done]. }
  destruct (argmax_nonempty (map Fin t)) as [c Hargmax].
  { by destruct t. }
  rewrite softmax_numbers in Hproba by done.
  exists st, features', t, c. do 4 (split; [done|]).
  split; [congruence|]. by apply argmax_first_max.
Qed.



(** C4 (as amended).  On a classifier fitted on a valid training set whose
    word counts add up exactly, with a moderate [delta], for a feature
    vector of counts of length [vocab_size], [predict] returns a class id
    and [predict_proba] a vector of numbers, and the entry of that class is
    maximal in that vector. *)
Theorem predict_attains_maximum_of_predict_proba
    (self : NaiveBayes) (features : Tensor2D) (labels : list nat) (delta : Q)
    (feature : list Q)
    (Hvalid : valid_training features labels delta)
    (Hcounts : exact_counts features)
    (Hdelta : moderate delta)
    (Hfeature : length feature = t_ncols features)
    (Hexact : exact_feature feature) :
  exists st features' c p best,
    fit self features labels delta = (st, features', Ok tt)
    /\ predict st feature = Ok c
    /\ predict_proba st feature = Ok (map Fin p)
    /\ length p = num_classes labels
    /\ p !! c = Some best
    /\ forall c' x, p !! c' = Some x -> (x <= best)%R.
Proof.
  destruct (fitted_inference self features labels delta feature Hvalid Hfeature)
    as (st & features' & t & c & Hfit & _ & Hlen & Hproba & Hpredict & Hmax).
  apply first_max_numbers in Hmax as (top & Htop & Hle & _).
  pose proof (real_softmax_lookup t c) as Hc. rewrite Htop in Hc. simpl in Hc.
  exists st, features', c, (real_softmax t),
    (exp top / rsum (map exp t))%R.
  do 3 (split; [done|]). split.
  { unfold real_softmax. by rewrite length_map. }
  split; [exact Hc|].
  intros c' x Hx. pose proof Hx as Hx'. rewrite real_softmax_lookup in Hx'.
  destruct (t !! c') as [y|] eqn:Hy; [|done].
  by apply (real_softmax_monotone t c' c y top x _ Hy Htop Hx Hc), (Hle c').
Qed.

Lemma predict_attains_maximum_of_predict_proba_witness :
  exists st features' c p best,
    fit init features0 labels0 1%Q = (st, features', Ok tt)
    /\ predict st feature0 = Ok c
    /\ predict_proba st feature0 = Ok (map Fin p)
    /\ length p = num_classes labels0
    /\ p !! c = Some best
    /\ forall c' x, p !! c' = Some x -> (x <= best)%R.
Proof.
  apply (predict_attains_maximum_of_predict_proba init features0 labels0 1%Q feature0).
  - exact valid_training_scenario.
  - exact exact_counts_features0.
  - exact moderate_one.
  - reflexivity.
  - exact exact_feature_scenario.
Defined.

(** C4 (as stated) fails on a classifier fitted without smoothing: on the
    feature [0, 1] the log-posteriors are [-inf, nan], [predict] returns
    class 1, and [predict_proba] returns [nan, nan], whose [argmax] is 0. *)
Lemma predict_differs_from_argmax_of_predict_proba :
  exists st features' p,
    fit init features_disjoint labels_disjoint 0%Q = (st, features', Ok tt)
    /\ vocab_size st = Some (length feature_second_word)
    /\ estimate_class_posteriors st feature_second_word = Ok [NInf; NaN]
    /\ predict st feature_second_word = Ok 1
    /\ predict_proba st feature_second_word = Ok p
    /\ p = [NaN; NaN]
    /\ argmax p = Ok 0.
Proof. eexists _, _, _. repeat split. Qed.

(** C8 (as amended).  On a classifier fitted on a valid training set whose
    word counts add up exactly, with a moderate [delta], for a feature
    vector of counts of length [vocab_size], [predict_proba] returns a
    vector of numbers with one entry per class id, all entries in [0,1],
    that sums to 1 (in exact arithmetic, hence within any tolerance). *)
Theorem predict_proba_is_distribution
    (self : NaiveBayes) (features : Tensor2D) (labels : list nat) (delta : Q)
    (feature : list Q)
    (Hvalid : valid_training features labels delta)
    (Hcounts : exact_counts features)
    (Hdelta : moderate delta)
    (Hfeature : length feature = t_ncols features)
    (Hexact : exact_feature feature) :
  exists st features' p,
    fit self features labels delta = (st, features', Ok tt)
    /\ predict_proba st feature = Ok (map Fin p)
    /\ length p = num_classes labels
    /\ Forall (fun x => (0 <= x <= 1)%R) p
    /\ rsum p = 1%R
    /\ (Rabs (rsum p - 1) <= 1 / 1000000)%R.
Proof.
  destruct (fitted_inference self features labels delta feature Hvalid Hfeature)
    as (st & features' & t & c & Hfit & _ & Hlen & Hproba & _).
  destruct (real_softmax_is_distribution t) as [Hrange Hsum].
  { intros ->. simpl in Hlen. destruct labels; [by destruct Hvalid | done]. }
  exists st, features', (real_softmax t).
  split; [done|]. split; [done|]. split.
  { unfold real_softmax. by rewrite length_map. }
  split; [done|]. split; [done|].
  rewrite Hsum, Rminus_diag, Rabs_R0. rlra.
Qed.

Lemma predict_proba_is_distribution_witness :
  exists st features' p,
    fit init features0 labels0 1%Q = (st, features', Ok tt)
    /\ predict_proba st feature0 = Ok (map Fin p)
    /\ length p = num_classes labels0
    /\ Forall (fun x => (0 <= x <= 1)%R) p
    /\ rsum p = 1%R
    /\ (Rabs (rsum p - 1) <= 1 / 1000000)%R.
Proof.
  apply (predict_proba_is_distribution init features0 labels0 1%Q feature0).
  - exact valid_training_scenario.
  - exact exact_counts_features0.
  - exact moderate_one.
  - reflexivity.
  - exact exact_feature_scenario.
Defined.

(** C8 (as stated) fails on a classifier fitted without smoothing: on the
    feature [1, 0] the log-posteriors are [nan, -inf] and every entry
    [predict_proba] returns is [nan], which is no number of [0,1]. *)
Lemma predict_proba_returns_nan_without_smoothing :
  exists st features',
    fit init features_disjoint labels_disjoint 0%Q = (st, features', Ok tt)
    /\ vocab_size st = Some (length feature_first_word)
    /\ estimate_class_posteriors st feature_first_word = Ok [NaN; NInf]
    /\ predict_proba st feature_first_word = Ok [NaN; NaN]
    /\ forall p : list R,
         predict_proba st feature_first_word <> Ok (map Fin p).
Proof.
  eexists _, _. do 4 (split; [reflexivity|]).
  intros p H.
  change (predict_proba _ _) with (Ok [@NaN R; @NaN R]) in H.
  destruct p as [|x p]; discriminate.
Qed.



(** Both classes of the tied training set have the same log-posterior on
    the feature [1]; [predict] returns class 0. *)
Example predict_tie_takes_least_class :
  exists st features' x,
    fit init features_tie labels_tie 1%Q = (st, features', Ok tt)
    /\ estimate_class_posteriors st [1%Q] = Ok [Fin x; Fin x]
    /\ predict st [1%Q] = Ok 0.
Proof.
  eexists _, _, _. split; [reflexivity|]. split; [reflexivity|].
  unfold predict. cbn -[beats xadd scale torch_log tensor_div].
  by rewrite beats_irrefl.
Qed.

(** * Further properties of the code *)

(** ** [estimate_class_priors] *)

Lemma get_map_keyed {V : Type} (f : nat -> V) (l : list nat) (k : nat) :
  PyDict.get k (map (fun c => (c, f c)) l)
  = if decide (k ∈ l) then Some (f k) else None.
Proof.
  induction l as [|c l IH]; cbn [map PyDict.get].
  - destruct (decide (k ∈ [])) as [H|H]; [by apply elem_of_nil in H | done].
  - destruct (Nat.eqb k c) eqn:E.
    + apply Nat.eqb_eq in E. subst.
      destruct (decide (c ∈ c :: l)) as [H|H]; [done|].
      exfalso. apply H, list_elem_of_here.
    + apply Nat.eqb_neq in E. rewrite IH.
      destruct (decide (k ∈ l)) as [H|H], (decide (k ∈ c :: l)) as [H'|H'];
        try done.
      * exfalso. by apply H', list_elem_of_further.
      * apply elem_of_cons in H' as [?|?]; done.
Qed.

Lemma elem_of_unique labels c : c ∈ unique labels <-> c ∈ labels.
Proof.
  unfold unique. rewrite list_elem_of_filter, elem_of_seq.
  split; [tauto|]. intros Hc. split; [done|].
  pose proof (labels_below_num_classes labels) as Hb.
  rewrite Forall_forall in Hb. specialize (Hb c Hc). lia.
Qed.

Lemma length_filter_eq_count_occ (labels : list nat) (c : nat) :
  length (filter (fun l => l = c) labels) = count_occ Nat.eq_dec labels c.
Proof.
  induction labels as [|l labels IH]; [done|].
  rewrite filter_cons. simpl. destruct (Nat.eq_dec l c) as [->|Hne].
  - rewrite decide_True by done. simpl. by rewrite IH.
  - by rewrite decide_False.
Qed.

Lemma StronglySorted_lt_seq (s n : nat) : StronglySorted lt (seq s n).
Proof.
  revert s. induction n as [|n IH]; intros s; simpl; constructor; [apply IH|].
  apply Forall_forall. intros x Hx. apply elem_of_seq in Hx. lia.
Qed.

Lemma StronglySorted_filter {A : Type} (R : A -> A -> Prop) (P : A -> Prop)
    `{forall x, Decision (P x)} (l : list A) :
  StronglySorted R l -> StronglySorted R (filter P l).
Proof.
  induction 1 as [|x l Hl IH Hx]; [constructor|].
  rewrite filter_cons. case_decide; [|done].
  constructor; [done|]. apply Forall_forall. intros y Hy.
  apply list_elem_of_filter in Hy as [_ Hy].
  rewrite Forall_forall in Hx. by apply Hx.
Qed.

Lemma estimate_class_priors_get (labels : list nat) (c : nat) :
  PyDict.get c (estimate_class_priors labels)
  = if decide (c ∈ labels)
    then Some (Qnat (count_occ Nat.eq_dec labels c) / Qnat (length labels))%Q
    else None.
Proof.
  unfold estimate_class_priors.
  rewrite (get_map_keyed
             (fun u => (Qnat (length (filter (fun l => l = u) labels))
                        / Qnat (length labels))%Q)).
  rewrite length_filter_eq_count_occ.
  destruct (decide (c ∈ unique labels)) as [H|H]; rewrite elem_of_unique in H;
    by case_decide.
Qed.

(** X1.  [estimate_class_priors] returns a dictionary whose keys are the
    labels that occur, in strictly ascending order; the value at a label is
    its number of occurrences divided by the number of labels, and a class
    id that does not occur has no key. *)
Theorem estimate_class_priors_lookup (labels : list nat) :
  (forall c,
     PyDict.get c (estimate_class_priors labels)
     = if decide (c ∈ labels)
       then Some (Qnat (count_occ Nat.eq_dec labels c) / Qnat (length labels))%Q
       else None)
  /\ StronglySorted lt (PyDict.keys (estimate_class_priors labels)).
Proof.
  split.
  - apply estimate_class_priors_get.
  - unfold estimate_class_priors, PyDict.keys. rewrite map_map. simpl.
    rewrite map_id. unfold unique.
    apply StronglySorted_filter, StronglySorted_lt_seq.
Qed.

Lemma sum_list_count_occ_filter (labels l : list nat) :
  sum_list (map (count_occ Nat.eq_dec labels) (filter (fun c => c ∈ labels) l))
  = sum_list (map (count_occ Nat.eq_dec labels) l).
Proof.
  induction l as [|c l IH]; [done|].
  rewrite filter_cons. case_decide as H; simpl; [by rewrite IH|].
  rewrite IH. rewrite list_elem_of_In in H.
  apply (count_occ_not_In Nat.eq_dec) in H. lia.
Qed.

(** X2.  For a non-empty label vector the values of
    [estimate_class_priors] are in (0,1] and sum to 1. *)
Theorem estimate_class_priors_distribution (labels : list nat)
    (Hne : labels <> []) :
  Forall (fun p => (0 < p <= 1)%Q) (PyDict.values (estimate_class_priors labels))
  /\ (qsum (PyDict.values (estimate_class_priors labels)) == 1)%Q.
Proof.
  assert (Hn : (0 < Qnat (length labels))%Q).
  { apply Qnat_pos. destruct labels; [done | simpl; lia]. }
  unfold estimate_class_priors, PyDict.values. rewrite map_map. simpl. split.
  - apply Forall_fmap, Forall_forall. intros c Hc. simpl.
    apply (proj1 (elem_of_unique _ _)) in Hc.
    rewrite length_filter_eq_count_occ. split.
    + by apply prior_positive.
    + apply Qle_shift_div_r; [done|]. rewrite Qmult_1_l. unfold Qnat.
      rewrite <- Zle_Qle. pose proof (count_occ_bound Nat.eq_dec c labels). lia.
  - rewrite (map_ext _ (fun c => (Qnat (count_occ Nat.eq_dec labels c)
                                  / Qnat (length labels))%Q))
      by (intros c; by rewrite length_filter_eq_count_occ).
    rewrite (qsum_quotients (count_occ Nat.eq_dec labels)).
    unfold unique. rewrite sum_list_count_occ_filter.
    rewrite sum_list_count_occ by apply labels_below_num_classes.
    field. qlra.
Qed.

Lemma estimate_class_priors_distribution_witness :
  Forall (fun p => (0 < p <= 1)%Q) (PyDict.values (estimate_class_priors labels_gap))
  /\ (qsum (PyDict.values (estimate_class_priors labels_gap)) == 1)%Q.
Proof.
  apply (estimate_class_priors_distribution labels_gap). discriminate.
Defined.

(** ** The keys [fit] stores *)

Lemma fit_class_priors self features labels delta :
  class_priors (fit self features labels delta).1.1 = Some (fitted_priors labels).
Proof.
  unfold fit, bincount. rewrite imap_of_seq.
  by destruct (estimate_conditional_probabilities _ _ _ _) as [? [?|?]].
Qed.

Lemma filter_id_Forall {A : Type} (P : A -> Prop) `{forall x, Decision (P x)}
    (l : list A) :
  filter P l = l <-> Forall P l.
Proof.
  split.
  - intros E. apply Forall_forall. intros x Hx. rewrite <- E in Hx.
    by apply list_elem_of_filter in Hx as [? _].
  - induction 1 as [|x l Hx _ IH]; [done|].
    by rewrite filter_cons_True, IH.
Qed.

Lemma fitted_priors_eq_estimate labels :
  fitted_priors labels = estimate_class_priors labels <-> dense labels.
Proof.
  unfold dense. rewrite <- (filter_id_Forall (fun c => c ∈ labels)). split.
  - intros E. apply (f_equal PyDict.keys) in E.
    unfold fitted_priors, estimate_class_priors, PyDict.keys in E.
    rewrite !map_map in E. simpl in E. rewrite !map_id in E. by symmetry.
  - intros E. unfold fitted_priors, estimate_class_priors, unique.
    rewrite E. apply map_ext. intros c.
    by rewrite length_filter_eq_count_occ.
Qed.

(** X3.  The priors [fit] stores and the ones [estimate_class_priors]
    returns agree at every label that occurs; the two dictionaries are equal
    exactly when every class id up to the largest label has an example. *)
Theorem fit_priors_vs_estimate_class_priors
    (self : NaiveBayes) (features : Tensor2D) (labels : list nat) (delta : Q) :
  exists priors,
    class_priors (fit self features labels delta).1.1 = Some priors
    /\ (forall c, c ∈ labels ->
          PyDict.get c priors = PyDict.get c (estimate_class_priors labels))
    /\ (priors = estimate_class_priors labels <-> dense labels).
Proof.
  exists (fitted_priors labels). split; [apply fit_class_priors|]. split.
  - intros c Hc. rewrite fitted_priors_get.
    rewrite estimate_class_priors_get.
    pose proof (labels_below_num_classes labels) as Hb.
    rewrite Forall_forall in Hb. specialize (Hb c Hc).
    by rewrite decide_True, decide_True.
  - apply fitted_priors_eq_estimate.
Qed.

Lemma class_rows_unlabelled c rows labels :
  c ∉ labels -> class_rows c rows labels = [].
Proof.
  revert labels. induction rows as [|r rows IH]; intros [|l labels] Hc;
    simpl; try done.
  apply not_elem_of_cons in Hc as [Hne Hc].
  destruct (Nat.eqb l c) eqn:E; [|by apply IH].
  apply Nat.eqb_eq in E. congruence.
Qed.

(** X4.  After [fit] on a training set with one label per example, the
    conditional probabilities have a key exactly for the labels that occur,
    and the priors a key exactly for the class ids up to the largest label;
    so every class with a prior has conditional probabilities exactly when
    every class id up to the largest label has an example. *)
Theorem fit_stored_keys
    (self : NaiveBayes) (features : Tensor2D) (labels : list nat) (delta : Q)
    (Hlen : length labels = length (t_rows features)) :
  exists st features' priors conditionals,
    fit self features labels delta = (st, features', Ok tt)
    /\ class_priors st = Some priors
    /\ conditional_probabilities st = Some conditionals
    /\ (forall c, is_Some (PyDict.get c conditionals) <-> c ∈ labels)
    /\ (forall c, is_Some (PyDict.get c priors) <-> c < num_classes labels)
    /\ ((forall c, is_Some (PyDict.get c priors) ->
                   is_Some (PyDict.get c conditionals))
        <-> dense labels).
Proof.
  destruct (fit_returns self features labels delta)
    as (features' & cp & Hfit & _ & _ & Hcp); [lia|].
  assert (Hc : forall c, is_Some (PyDict.get c cp) <-> c ∈ labels).
  { intros c. rewrite Hcp. split.
    - intros Hs. destruct (decide (c ∈ labels)) as [|Hn]; [done|].
      rewrite (class_rows_unlabelled _ _ _ Hn) in Hs. by destruct Hs.
    - intros Hin.
      pose proof (class_rows_labelled c _ _ (eq_sym Hlen) Hin).
      destruct (class_rows c (t_rows features) labels); [done | by eexists]. }
  assert (Hp : forall c, is_Some (PyDict.get c (fitted_priors labels))
                         <-> c < num_classes labels).
  { intros c. rewrite fitted_priors_get.
    destruct (decide (c < num_classes labels)); split; intros H;
      try done; try (by eexists); by destruct H. }
  eexists _, features', (fitted_priors labels), cp.
  split; [exact Hfit|]. do 4 (split; [done|]).
  unfold dense. rewrite Forall_forall. split.
  - intros H c Hin. apply elem_of_seq in Hin. apply Hc, H, Hp. lia.
  - intros H c Hs. apply Hc, H, elem_of_seq. apply Hp in Hs. lia.
Qed.

Lemma fit_stored_keys_witness :
  exists st features' priors conditionals,
    fit init features_gap labels_gap 1%Q = (st, features', Ok tt)
    /\ class_priors st = Some priors
    /\ conditional_probabilities st = Some conditionals
    /\ (forall c, is_Some (PyDict.get c conditionals) <-> c ∈ labels_gap)
    /\ (forall c, is_Some (PyDict.get c priors) <-> c < num_classes labels_gap)
    /\ ((forall c, is_Some (PyDict.get c priors) ->
                   is_Some (PyDict.get c conditionals))
        <-> dense labels_gap).
Proof.
  apply (fit_stored_keys init features_gap labels_gap 1%Q). reflexivity.
Defined.

(** ** The order of the examples *)

Lemma num_classes_permutation labels labels' :
  labels ≡ₚ labels' -> num_classes labels = num_classes labels'.
Proof.
  intros HP. unfold num_classes.
  destruct labels as [|l labels], labels' as [|l' labels']; try done.
  - by apply Permutation_nil_cons in HP.
  - symmetry in HP. by apply Permutation_nil_cons in HP.
  - f_equal. exact (max_list_with_Permutation_proper _ _ _ HP).
Qed.

(** X13.  The priors do not depend on the order of the examples: on two
    label vectors that are permutations of each other [fit] stores the same
    priors, whatever the features, and [estimate_class_priors] returns the
    same dictionary. *)
Theorem priors_invariant_under_permutation
    (self self' : NaiveBayes) (features features' : Tensor2D)
    (labels labels' : list nat) (delta delta' : Q)
    (Hperm : labels ≡ₚ labels') :
  class_priors (fit self features labels delta).1.1
  = class_priors (fit self' features' labels' delta').1.1
  /\ estimate_class_priors labels = estimate_class_priors labels'.
Proof.
  pose proof (num_classes_permutation _ _ Hperm) as HK.
  pose proof (Permutation_length Hperm) as Hn.
  pose proof (proj1 (Permutation_count_occ Nat.eq_dec labels labels') Hperm) as Hcnt.
  split.
  - rewrite !fit_class_priors. f_equal. unfold fitted_priors.
    rewrite HK, Hn. apply map_ext. intros c. by rewrite Hcnt.
  - unfold estimate_class_priors, unique. rewrite HK, Hn.
    rewrite (list_filter_iff (fun c => c ∈ labels) (fun c => c ∈ labels'))
      by (intros c; by rewrite Hperm).
    apply map_ext. intros c. by rewrite !length_filter_eq_count_occ, Hcnt.
Qed.

Lemma priors_invariant_under_permutation_witness :
  class_priors (fit init features0 [0; 0; 1] 1%Q).1.1
  = class_priors (fit init features0 [1; 0; 0] 1%Q).1.1
  /\ estimate_class_priors [0; 0; 1] = estimate_class_priors [1; 0; 0].
Proof.
  apply priors_invariant_under_permutation.
  change [0; 0; 1] with ([0; 0] ++ [1]). change [1; 0; 0] with ([1] ++ [0; 0]).
  apply Permutation_app_comm.
Defined.

(** ** Inference on a classifier fitted on labels with a gap *)

Lemma posteriors_loop_app priors conditionals feature ks1 ks2 : forall t,
  posteriors_loop priors conditionals feature (ks1 ++ ks2) t
  = (t' <- posteriors_loop priors conditionals feature ks1 t ;;;
     posteriors_loop priors conditionals feature ks2 t').
Proof.
  induction ks1 as [|k ks1 IH]; intros t; simpl; [done|].
  destruct (PyDict.getitem k priors); [|done]. simpl.
  destruct (PyDict.getitem k conditionals); [|done]. simpl.
  destruct (torch_mul _ _); [|done]. simpl.
  destruct (setitem t k _); [|done]. simpl. apply IH.
Qed.

Lemma fitted_priors_nonempty labels : labels <> [] -> fitted_priors labels <> [].
Proof. by destruct labels. Qed.

Lemma fitted_priors_length labels :
  length (fitted_priors labels) = num_classes labels.
Proof. unfold fitted_priors. by rewrite length_map, length_seq. Qed.

Lemma fitted_priors_keys labels :
  PyDict.keys (fitted_priors labels) = seq 0 (num_classes labels).
Proof. unfold fitted_priors, PyDict.keys. rewrite map_map. apply map_id. Qed.

(** X5.  When the class id [c0] has no example although a larger label
    occurs, and every class id below [c0] has one, then on the classifier
    [fit] leaves, [estimate_class_posteriors], [predict] and [predict_proba]
    all raise [KeyError(c0)] for every feature vector of length
    [vocab_size]. *)
Theorem inference_raises_KeyError_at_absent_class
    (self : NaiveBayes) (features : Tensor2D) (labels : list nat) (delta : Q)
    (feature : list Q) (c0 : nat)
    (Hshape : well_shaped features)
    (Hlen : length labels = length (t_rows features))
    (Hfeature : length feature = t_ncols features)
    (Hc0 : c0 < num_classes labels)
    (Habsent : c0 ∉ labels)
    (Hbelow : forall c, c < c0 -> c ∈ labels) :
  exists st features',
    fit self features labels delta = (st, features', Ok tt)
    /\ estimate_class_posteriors st feature = Raise (KeyError c0)
    /\ predict st feature = Raise (KeyError c0)
    /\ predict_proba st feature = Raise (KeyError c0).
Proof.
  destruct (fit_returns self features labels delta)
    as (features' & cp & Hfit & _ & _ & Hcp); [lia|].
  eexists _, features'. split; [exact Hfit|].
  assert (Hne : labels <> []) by (intros ->; simpl in Hc0; lia).
  assert (Hest : estimate_class_posteriors
                   {| class_priors := Some (fitted_priors labels);
                      conditional_probabilities := Some cp;
                      vocab_size := Some (t_ncols features) |} feature
                 = Raise (KeyError c0)).
  { unfold estimate_class_posteriors. simpl.
    rewrite fitted_priors_keys, fitted_priors_length.
    replace (num_classes labels) with (c0 + S (num_classes labels - S c0)) at 1
      by lia.
    rewrite seq_app, posteriors_loop_app.
    destruct (posteriors_loop_returns (fitted_priors labels) cp feature
                (seq 0 c0) (NoDup_seq 0 c0)
                (replicate (num_classes labels) (Fin 0%R)))
      as (t' & -> & _).
    { intros c Hc. apply elem_of_seq in Hc. rewrite length_replicate.
      split; [lia|]. eexists _, _, _. rewrite fitted_priors_get, Hcp.
      rewrite decide_True by lia.
      assert (Hin : c ∈ labels) by (apply Hbelow; lia).
      pose proof (class_rows_labelled c _ _ (eq_sym Hlen) Hin).
      destruct (class_rows c (t_rows features) labels) eqn:E; [done|].
      split; [done|]. split; [done|]. apply torch_mul_same_length.
      rewrite length_map, Hfeature. symmetry.
      apply smooth_length. by apply word_counts_shape. }
    simpl. unfold PyDict.getitem at 1. rewrite fitted_priors_get.
    rewrite decide_True by lia. simpl.
    unfold PyDict.getitem at 1. rewrite Hcp.
    by rewrite (class_rows_unlabelled _ _ _ Habsent). }
  assert (Hcpne : cp <> []).
  { destruct labels as [|l labels]; [done|]. intros ->.
    specialize (Hcp l). simpl in Hcp.
    pose proof (class_rows_labelled l (t_rows features) (l :: labels)
                  (eq_sym Hlen) (list_elem_of_here _ _)).
    by destruct (class_rows l (t_rows features) (l :: labels)). }
  pose proof (fitted_priors_nonempty labels Hne) as Hpne.
  split; [exact Hest|].
  unfold predict, predict_proba. rewrite Hest. simpl.
  by destruct (fitted_priors labels), cp.
Qed.

Lemma inference_raises_KeyError_at_absent_class_witness :
  exists st features',
    fit init features_gap labels_gap 1%Q = (st, features', Ok tt)
    /\ estimate_class_posteriors st [1; 0]%Q = Raise (KeyError 1)
    /\ predict st [1; 0]%Q = Raise (KeyError 1)
    /\ predict_proba st [1; 0]%Q = Raise (KeyError 1).
Proof.
  apply (inference_raises_KeyError_at_absent_class
           init features_gap labels_gap 1%Q [1; 0]%Q 1).
  - repeat constructor.
  - reflexivity.
  - reflexivity.
  - simpl. lia.
  - unfold labels_gap. intros H.
    repeat (apply elem_of_cons in H as [H|H]; [discriminate|]).
    by apply elem_of_nil in H.
  - intros c Hc. replace c with 0 by lia. unfold labels_gap.
    apply list_elem_of_here.
Defined.

(** ** [fit] on fewer labels than examples *)

Lemma count_words_short (rows0 : list (list Q)) (labels : list nat) (m : nat) :
  forall i store cwc,
    i <= length labels -> length labels < i + m -> i + m <= length rows0 ->
    loop_inv rows0 labels i store cwc ->
    exists store' cwc',
      count_words (seq i m) labels store cwc = (store', Raise IndexError)
      /\ loop_inv rows0 labels (length labels) store' cwc'.
Proof.
  induction m as [|m IH]; intros i store cwc Hi Hm Hrows H; [lia|]. simpl.
  destruct (labels !! i) as [label|] eqn:Hl.
  - apply lookup_lt_Some in Hl as Hlt.
    destruct (lookup_lt_is_Some_2 rows0 i) as [r Hr]; [lia|].
    pose proof (loop_inv_step _ _ _ _ _ _ _ H Hr Hl) as Hstep.
    destruct (PyDict.get label cwc); apply IH; (lia || done).
  - apply lookup_ge_None in Hl. exists store, cwc. split; [done|].
    by replace (length labels) with i by lia.
Qed.

(** X6.  When there are fewer labels than examples, [fit] raises
    [IndexError]; the classifier then holds the priors of the labels and the
    width of the features, its conditional probabilities are what they were
    before the call, and the examples that have no label are unchanged. *)
Theorem fit_raises_IndexError_on_unlabelled_examples
    (self : NaiveBayes) (features : Tensor2D) (labels : list nat) (delta : Q)
    (Hshort : length labels < length (t_rows features)) :
  exists st features' priors,
    fit self features labels delta = (st, features', Raise IndexError)
    /\ class_priors st = Some priors
    /\ (forall c, c ∈ labels ->
          PyDict.get c priors
          = Some (Qnat (count_occ Nat.eq_dec labels c) / Qnat (length labels))%Q)
    /\ vocab_size st = Some (t_ncols features)
    /\ conditional_probabilities st = conditional_probabilities self
    /\ length (t_rows features') = length (t_rows features)
    /\ forall k, length labels <= k ->
         t_rows features' !! k = t_rows features !! k.
Proof.
  unfold fit, estimate_conditional_probabilities.
  destruct (count_words_short (t_rows features) labels
              (length (t_rows features)) 0 (t_rows features) [])
    as (store' & cwc' & -> & Hinv); [lia | lia | lia | apply loop_inv_start |].
  unfold bincount. rewrite imap_of_seq. fold (fitted_priors labels).
  eexists _, _, (fitted_priors labels). split; [reflexivity|]. simpl.
  split; [done|]. split.
  { intros c Hc. rewrite fitted_priors_get.
    pose proof (labels_below_num_classes labels) as Hb.
    rewrite Forall_forall in Hb. specialize (Hb c Hc).
    by rewrite decide_True. }
  do 2 (split; [done|]). split; [apply Hinv|].
  intros k Hk. by apply (loop_inv_todo _ _ _ _ _ _ Hinv).
Qed.

Lemma fit_raises_IndexError_on_unlabelled_examples_witness :
  exists st features' priors,
    fit init features0 labels_short 1%Q = (st, features', Raise IndexError)
    /\ class_priors st = Some priors
    /\ (forall c, c ∈ labels_short ->
          PyDict.get c priors
          = Some (Qnat (count_occ Nat.eq_dec labels_short c) / Qnat (length labels_short))%Q)
    /\ vocab_size st = Some (t_ncols features0)
    /\ conditional_probabilities st = conditional_probabilities init
    /\ length (t_rows features') = length (t_rows features0)
    /\ forall k, length labels_short <= k ->
         t_rows features' !! k = t_rows features0 !! k.
Proof.
  apply (fit_raises_IndexError_on_unlabelled_examples init features0 labels_short 1%Q).
  simpl. lia.
Defined.

(** ** What [fit] keeps of the classifier *)

(** X15.  On a training set that has a label for every example, what [fit]
    leaves (classifier, features tensor and result) does not depend on what
    the classifier held before the call. *)
Theorem fit_overwrites_previous_state
    (self self' : NaiveBayes) (features : Tensor2D) (labels : list nat)
    (delta : Q)
    (Hlen : length (t_rows features) <= length labels) :
  fit self features labels delta = fit self' features labels delta.
Proof.
  destruct (fit_returns self features labels delta)
    as (f1 & cp1 & H1 & _); [done|].
  rewrite H1. revert H1.
  unfold fit, estimate_conditional_probabilities. simpl.
  destruct (count_words _ _ _ _) as [store [cwc|e]].
  - destruct cwc; intros H; symmetry; exact H.
  - intros [=].
Qed.

Lemma fit_overwrites_previous_state_witness :
  fit init features0 labels0 1%Q
  = fit (fit init features_gap labels_gap 1%Q).1.1 features0 labels0 1%Q.
Proof.
  apply (fit_overwrites_previous_state init _ features0 labels0 1%Q).
  simpl. lia.
Defined.

(** ** What [fit] does to the caller's tensor *)

Lemma first_example_unique labels k k' c :
  first_example labels k c -> first_example labels k' c -> k = k'.
Proof.
  intros [Hk Hfirst] [Hk' Hfirst'].
  destruct (Nat.lt_trichotomy k k') as [Hlt|[->|Hlt]]; [|done|].
  - by apply Hfirst' in Hlt.
  - by apply Hfirst in Hlt.
Qed.

(** The views [count_words] keeps are those of the first example of each
    label. *)
Lemma count_words_views (labels : list nat) (m : nat) :
  forall i store cwc store' cwc',
    count_words (seq i m) labels store cwc = (store', Ok cwc') ->
    (forall c k, PyDict.get c cwc = Some k -> first_example labels k c) ->
    (forall c, PyDict.get c cwc = None ->
               forall k', k' < i -> labels !! k' <> Some c) ->
    forall c k, PyDict.get c cwc' = Some k -> first_example labels k c.
Proof.
  induction m as [|m IH]; intros i store cwc store' cwc' Hrun Hseen Hunseen;
    simpl in Hrun.
  - by injection Hrun as <- <-.
  - destruct (labels !! i) as [label|] eqn:Hl; [|done].
    destruct (PyDict.get label cwc) as [acc|] eqn:Hget.
    + apply (IH _ _ _ _ _ Hrun); [done|].
      intros c Hc k' Hk'. destruct (decide (k' = i)) as [->|Hne].
      * rewrite Hl. intros [= ->]. congruence.
      * apply Hunseen; [done | lia].
    + apply (IH _ _ _ _ _ Hrun).
      * intros c k Hc. destruct (decide (c = label)) as [->|Hne].
        -- rewrite get_set_eq in Hc. injection Hc as <-.
           split; [done|]. by apply Hunseen.
        -- rewrite get_set_ne in Hc by done. by apply Hseen.
      * intros c Hc k' Hk'. destruct (decide (c = label)) as [->|Hne].
        -- by rewrite get_set_eq in Hc.
        -- rewrite get_set_ne in Hc by done.
           destruct (decide (k' = i)) as [->|Hne'].
           ++ rewrite Hl. congruence.
           ++ apply Hunseen; [done | lia].
Qed.

(** X7.  On a training set that has a label for every example and whose
    word counts add up exactly, [fit] leaves in the caller's tensor, at the
    first example of each class, the word counts of the class, and leaves
    every other example as it was. *)
Theorem fit_effect_on_features
    (self : NaiveBayes) (features : Tensor2D) (labels : list nat) (delta : Q)
    (k c : nat)
    (Hlen : length (t_rows features) <= length labels)
    (Hcounts : exact_counts features)
    (Hk : k < length (t_rows features))
    (Hc : labels !! k = Some c) :
  (first_example labels k c ->
     t_rows (fit self features labels delta).1.2 !! k
     = Some (word_counts features labels c))
  /\ (~ first_example labels k c ->
        t_rows (fit self features labels delta).1.2 !! k
        = t_rows features !! k)
  /\ t_ncols (fit self features labels delta).1.2 = t_ncols features.
Proof.
  destruct (count_words_inv (t_rows features) labels (length (t_rows features))
              0 (t_rows features) [] eq_refl Hlen (loop_inv_start _ _))
    as (store' & cwc' & Hrun & Hinv).
  assert (Hviews : forall c k, PyDict.get c cwc' = Some k ->
                               first_example labels k c).
  { apply (count_words_views _ _ _ _ _ _ _ Hrun); [done|].
    intros ? _ k' Hk'. lia. }
  assert (Hfit : (fit self features labels delta).1.2
                 = mkTensor2D store' (t_ncols features)).
  { unfold fit, estimate_conditional_probabilities. rewrite Hrun.
    by destruct cwc'. }
  rewrite Hfit. simpl. split; [|split; [|done]].
  - intros Hfirst.
    destruct (PyDict.get c cwc') as [k'|] eqn:Hget.
    + pose proof (first_example_unique _ _ _ _ Hfirst (Hviews _ _ Hget)) as <-.
      destruct (inv_seen _ _ _ _ _ Hinv _ _ Hget) as (_ & _ & _ & Hrow).
      by rewrite firstn_all, class_rows_take_labels in Hrow.
    + exfalso. pose proof (inv_unseen _ _ _ _ _ Hinv _ Hget) as Hnil.
      rewrite firstn_all, class_rows_take_labels in Hnil.
      assert (Hin : c ∈ take (length (t_rows features)) labels).
      { apply elem_of_take. eauto. }
      rewrite <- class_rows_take_labels in Hnil.
      apply (class_rows_labelled c (t_rows features)) in Hin; [done|].
      rewrite length_take. lia.
  - intros Hnot. apply (inv_frame _ _ _ _ _ Hinv). intros c' Hc'.
    pose proof (Hviews _ _ Hc') as Hfirst.
    destruct Hfirst as [Hlab ?]. rewrite Hc in Hlab. injection Hlab as <-.
    apply Hnot. by split.
Qed.

Lemma fit_effect_on_features_witness :
  (first_example labels0 0 0 ->
     t_rows (fit init features0 labels0 1%Q).1.2 !! 0
     = Some (word_counts features0 labels0 0))
  /\ (~ first_example labels0 0 0 ->
        t_rows (fit init features0 labels0 1%Q).1.2 !! 0
        = t_rows features0 !! 0)
  /\ t_ncols (fit init features0 labels0 1%Q).1.2 = t_ncols features0.
Proof.
  apply (fit_effect_on_features init features0 labels0 1%Q 0 0).
  - simpl. lia.
  - exact exact_counts_features0.
  - simpl. lia.
  - reflexivity.
Defined.

(** ** Training without examples *)

(** X8.  When the features tensor has no row, [fit] returns and stores an
    empty dictionary of conditional probabilities, whatever the labels;
    [predict] and [predict_proba] then raise the "not trained" exception,
    while [estimate_class_posteriors] returns the empty vector when there is
    no label either and raises [KeyError(0)] otherwise. *)
Theorem fit_without_examples
    (self : NaiveBayes) (vocab : nat) (labels : list nat) (delta : Q)
    (feature : list Q) :
  exists st,
    fit self (mkTensor2D [] vocab) labels delta
    = (st, mkTensor2D [] vocab, Ok tt)
    /\ conditional_probabilities st = Some []
    /\ vocab_size st = Some vocab
    /\ predict st feature = Raise (Exception msg_not_trained)
    /\ predict_proba st feature = Raise (Exception msg_not_trained)
    /\ estimate_class_posteriors st feature
       = match labels with
         | [] => Ok []
         | _ :: _ => Raise (KeyError 0)
         end.
Proof.
  eexists. split; [reflexivity|]. simpl. do 2 (split; [done|]).
  split; [|split].
  - unfold predict. simpl. by rewrite orb_true_r.
  - unfold predict_proba. simpl. by rewrite orb_true_r.
  - by destruct labels.
Qed.

(** ** [estimate_conditional_probabilities] called on its own *)



(** ** Feature vectors of another length *)

Lemma torch_mul_mismatch (a : list Q) (b : list (ext R)) :
  length a <> length b -> length a <> 1 -> length b <> 1 ->
  torch_mul a b = Raise RuntimeError.
Proof.
  intros Hab Ha Hb. unfold torch_mul.
  apply Nat.eqb_neq in Hab. rewrite Hab.
  destruct a as [|x [|x' a]], b as [|y [|y' b]]; simpl in *; done.
Qed.


(** X10.  On a classifier fitted on a training set with one label per
    example in which class 0 occurs, a feature vector whose length is
    neither [vocab_size] nor 1 makes [estimate_class_posteriors], [predict]
    and [predict_proba] raise the shape error of the elementwise product
    (given [vocab_size] is not 1, when every length broadcasts). *)
Theorem inference_raises_on_shape_mismatch
    (self : NaiveBayes) (features : Tensor2D) (labels : list nat) (delta : Q)
    (feature : list Q)
    (Hshape : well_shaped features)
    (Hlen : length labels = length (t_rows features))
    (Hzero : 0 ∈ labels)
    (Hmismatch : length feature <> t_ncols features)
    (Hfeature : length feature <> 1)
    (Hvocab : t_ncols features <> 1) :
  exists st features',
    fit self features labels delta = (st, features', Ok tt)
    /\ estimate_class_posteriors st feature = Raise RuntimeError
    /\ predict st feature = Raise RuntimeError
    /\ predict_proba st feature = Raise RuntimeError.
Proof.
  destruct (fit_returns self features labels delta)
    as (features' & cp & Hfit & _ & _ & Hcp); [lia|].
  eexists _, features'. split; [exact Hfit|].
  pose proof (labels_below_num_classes labels) as Hb.
  rewrite Forall_forall in Hb. specialize (Hb 0 Hzero).
  assert (Hcp0 : PyDict.get 0 cp
                 = Some (smooth (word_counts features labels 0) delta
                                (t_ncols features))).
  { rewrite Hcp. pose proof (class_rows_labelled 0 _ _ (eq_sym Hlen) Hzero).
    by destruct (class_rows 0 (t_rows features) labels). }
  assert (Hest : estimate_class_posteriors
                   {| class_priors := Some (fitted_priors labels);
                      conditional_probabilities := Some cp;
                      vocab_size := Some (t_ncols features) |} feature
                 = Raise RuntimeError).
  { unfold estimate_class_posteriors. simpl. rewrite fitted_priors_keys.
    destruct (num_classes labels) as [|K] eqn:EK; [lia|]. simpl.
    unfold PyDict.getitem at 1. rewrite fitted_priors_get, EK.
    rewrite decide_True by lia. simpl.
    unfold PyDict.getitem at 1. rewrite Hcp0. simpl.
    rewrite torch_mul_mismatch; [done|..]; try done;
      rewrite length_map, smooth_length; try done;
      by apply word_counts_shape. }
  split; [exact Hest|].
  unfold predict, predict_proba. rewrite Hest. simpl.
  assert (fitted_priors labels <> [])
    by (apply fitted_priors_nonempty; intros ->; by apply elem_of_nil in Hzero).
  assert (cp <> []) by (intros ->; done).
  by destruct (fitted_priors labels), cp.
Qed.

Lemma inference_raises_on_shape_mismatch_witness :
  exists st features',
    fit init features0 labels0 1%Q = (st, features', Ok tt)
    /\ estimate_class_posteriors st [1; 1]%Q = Raise RuntimeError
    /\ predict st [1; 1]%Q = Raise RuntimeError
    /\ predict_proba st [1; 1]%Q = Raise RuntimeError.
Proof.
  apply (inference_raises_on_shape_mismatch init features0 labels0 1%Q [1; 1]%Q).
  - exact well_shaped_features0.
  - reflexivity.
  - unfold labels0. repeat constructor.
  - simpl. lia.
  - simpl. lia.
  - simpl. lia.
Defined.





(** ** The feature vector without words *)









(** ** Results on any classifier *)

(** X14.  Whatever the classifier holds, when [predict] returns a class id
    it is below the number of stored priors, and on the same feature
    [estimate_class_posteriors] and [predict_proba] return vectors with one
    entry per stored prior. *)
Theorem predict_result_below_number_of_priors
    (self : NaiveBayes) (feature : list Q) (c : nat)
    (Hpredict : predict self feature = Ok c) :
  exists priors t,
    class_priors self = Some priors
    /\ c < length priors
    /\ estimate_class_posteriors self feature = Ok t
    /\ length t = length priors
    /\ predict_proba self feature = Ok (softmax t)
    /\ length (softmax t) = length priors.
Proof.
  destruct (predict_returns_first_max _ _ _ Hpredict) as (t & Ht & Hmax).
  destruct (estimate_class_posteriors_length _ _ _ Ht) as (priors & Hp & Hlen).
  exists priors, t. split; [done|]. split.
  { destruct Hmax as (x & Hx & _). apply lookup_lt_Some in Hx. lia. }
  do 2 (split; [done|]). split.
  - revert Hpredict. unfold predict, predict_proba. rewrite Ht.
    by destruct (py_not _ || py_not _).
  - by rewrite softmax_length.
Qed.

Lemma predict_result_below_number_of_priors_witness :
  exists priors t,
    class_priors (fit init features_tie labels_tie 1%Q).1.1 = Some priors
    /\ 0 < length priors
    /\ estimate_class_posteriors (fit init features_tie labels_tie 1%Q).1.1 [1%Q]
       = Ok t
    /\ length t = length priors
    /\ predict_proba (fit init features_tie labels_tie 1%Q).1.1 [1%Q]
       = Ok (softmax t)
    /\ length (softmax t) = length priors.
Proof.
  apply (predict_result_below_number_of_priors
           (fit init features_tie labels_tie 1%Q).1.1 [1%Q] 0).
  unfold predict. cbn -[beats xadd scale torch_log tensor_div].
  by rewrite beats_irrefl.
Defined.
